(** * Adversarial example generation: a model of adversarial_generator.py

    The script samples images of one class from a dictionary of labelled
    images and perturbs them with three gradient-sign attacks.  The model
    below follows the script function by function.

    - Python objects (the dictionary, its lists, the numpy arrays) live in a
      heap and are named by references, so that aliasing and in-place
      updates are visible.
    - Python code is written in a state-and-exception monad over that heap
      and the random generator.
    - Pixel values are rationals: the order-theoretic content of [np.clip]
      and [np.add] is kept, rounding is not modelled.
    - The Keras loss is a parameter of the development; a Keras model is a
      function from a batch to its predictions.  In the attacks, which act
      on single-example batches, the evaluated loss is one rational; the
      module [PerExample] gives the estimator on batches of any size, with
      one loss per example. *)

From Stdlib Require Import ZArith QArith Qminmax Qabs Lia Lqa.
From stdpp Require Import base option list gmap strings pretty.

(** ** numpy arrays *)

(** An array of any rank: a scalar, or a sequence of sub-arrays. *)
Unset Elimination Schemes.
Inductive ndarray : Type :=
  | Scalar (q : Q)
  | Arr (items : list ndarray).
Set Elimination Schemes.

Fixpoint nd_map (f : Q -> Q) (a : ndarray) : ndarray :=
  match a with
  | Scalar q => Scalar (f q)
  | Arr items => Arr (List.map (nd_map f) items)
  end.

Fixpoint nd_all (p : Q -> bool) (a : ndarray) : bool :=
  match a with
  | Scalar q => p q
  | Arr items => forallb (nd_all p) items
  end.

Fixpoint nd_flatten (a : ndarray) : list Q :=
  match a with
  | Scalar q => [q]
  | Arr items => List.flat_map nd_flatten items
  end.

(** [np.add(x, s)] with a scalar [s]: broadcast over every entry. *)
Definition add_scalar (a : ndarray) (s : Q) : ndarray :=
  nd_map (fun q => (q + s)%Q) a.

(** [np.clip(x, lo, hi)] is [minimum(hi, maximum(x, lo))] entry by entry. *)
Definition clip_scalar (lo hi q : Q) : Q := Qmin hi (Qmax lo q).

Definition clip (a : ndarray) (lo hi : Q) : ndarray :=
  nd_map (clip_scalar lo hi) a.

(** [np.array([x])]: a copy of [x] under a new leading axis of size 1. *)
Definition batch_of (a : ndarray) : ndarray := Arr [a].

(** [np.argmin] on the flattened entries: index of the first minimum. *)
Fixpoint argmin_from (best_i : nat) (best : Q) (i : nat) (l : list Q) : nat :=
  match l with
  | [] => best_i
  | q :: l' =>
      match (q ?= best)%Q with
      | Lt => argmin_from i q (S i) l'
      | _ => argmin_from best_i best (S i) l'
      end
  end.

Definition argmin (l : list Q) : option nat :=
  match l with
  | [] => None
  | q :: l' => Some (argmin_from 0 q 1 l')
  end.

Definition in_unit_interval (q : Q) : bool := Qle_bool 0 q && Qle_bool q 1.

(** Every pixel of the array lies in [0,1]. *)
Definition pixels_in_01 (a : ndarray) : bool := nd_all in_unit_interval a.

(** ** Python objects, heap and exceptions *)

(** References are indices into the heap. *)
Abbreviation loc := nat (only parsing).

Inductive obj : Type :=
  | ODict (d : gmap string loc)
  | OList (items : list loc)
  | ONdarray (a : ndarray).

(** The interpreter state: allocated objects, indexed by reference, and the
    raw output stream of the random generator. *)
Record state : Type := State { heap : list obj; rng : nat -> nat }.

Inductive exn : Type :=
  ValueError | KeyError | IndexError | TypeError | AssertionError.

Inductive result (A : Type) : Type :=
  | Ok (a : A) (s : state)
  | Raise (e : exn).
Arguments Ok {A} a s.
Arguments Raise {A} e.

Definition M (A : Type) : Type := state -> result A.

Definition ret {A} (a : A) : M A := fun s => Ok a s.
Definition raise {A} (e : exn) : M A := fun _ => Raise e.
Definition bind {A B} (m : M A) (k : A -> M B) : M B :=
  fun s => match m s with
           | Ok a s' => k a s'
           | Raise e => Raise e
           end.

Declare Scope py_scope.
Delimit Scope py_scope with py.
Notation "x <- m ;; k" := (bind m (fun x => k))
  (at level 100, m at next level, right associativity) : py_scope.
Notation "m ;;; k" := (bind m (fun _ => k))
  (at level 100, right associativity) : py_scope.
Open Scope py_scope.

(** Allocation of a new object; its reference is the next free index. *)
Definition new (o : obj) : M loc :=
  fun s => Ok (length (heap s)) (State (heap s ++ [o]) (rng s)).

Definition deref (l : loc) : M obj :=
  fun s => match heap s !! l with
           | Some o => Ok o s
           | None => Raise TypeError
           end.

Definition assign (l : loc) (o : obj) : M unit :=
  fun s => Ok tt (State (<[l := o]> (heap s)) (rng s)).

Definition as_dict (l : loc) : M (gmap string loc) :=
  o <- deref l ;;
  match o with ODict d => ret d | _ => raise TypeError end.

Definition as_list (l : loc) : M (list loc) :=
  o <- deref l ;;
  match o with OList items => ret items | _ => raise TypeError end.

Definition as_ndarray (l : loc) : M ndarray :=
  o <- deref l ;;
  match o with ONdarray a => ret a | _ => raise TypeError end.

(** [len(x)] *)
Definition py_len (x : loc) : M nat :=
  o <- deref x ;;
  match o with
  | ODict d => ret (size d)
  | OList items => ret (length items)
  | ONdarray (Arr items) => ret (length items)
  | ONdarray (Scalar _) => raise TypeError
  end.

(** [str(n)] for a non-negative integer. *)
Definition str (n : nat) : string := pretty n.

(** [d[key]] *)
Definition dict_getitem (d : loc) (key : string) : M loc :=
  m <- as_dict d ;;
  match m !! key with
  | Some v => ret v
  | None => raise KeyError
  end.

(** [d[key] = v] *)
Definition dict_setitem (d : loc) (key : string) (v : loc) : M unit :=
  m <- as_dict d ;;
  assign d (ODict (<[key := v]> m)).

(** [l.append(v)] *)
Definition list_append (l : loc) (v : loc) : M unit :=
  items <- as_list l ;;
  assign l (OList (items ++ [v])).

(** Normalisation of one bound of a slice against the length. *)
Definition slice_bound (len i : Z) : Z :=
  if (i <? 0)%Z then Z.max (i + len) 0 else Z.min i len.

(** [l[start:stop]]: never fails, out-of-range bounds are clamped. *)
Definition py_slice {A} (l : list A) (start stop : Z) : list A :=
  let len := Z.of_nat (length l) in
  let i := slice_bound len start in
  let j := slice_bound len stop in
  take (Z.to_nat (j - i)) (drop (Z.to_nat i) l).

(** Slicing a list builds a new list object holding the same references. *)
Definition list_slice (l : loc) (start stop : Z) : M loc :=
  items <- as_list l ;;
  new (OList (py_slice items start stop)).

(** [l[i]] for [i >= 0] *)
Definition list_getitem (l : loc) (i : nat) : M loc :=
  items <- as_list l ;;
  match items !! i with
  | Some v => ret v
  | None => raise IndexError
  end.

(** [l[i] = v] for [i >= 0]: an update of the list object in place. *)
Definition list_setitem (l : loc) (i : nat) (v : loc) : M unit :=
  items <- as_list l ;;
  if decide (i < length items)
  then assign l (OList (<[i := v]> items))
  else raise IndexError.

(** [random.randint(a, b)] is [a + _randbelow(b - a + 1)], both ends
    included; an empty interval is a ValueError.  [_randbelow(w)] reduces
    the next raw draw below [w]. *)
Definition random_randint (a b : Z) : M Z :=
  fun s =>
    if (b <? a)%Z then Raise ValueError
    else
      let width := Z.to_nat (b - a + 1) in
      Ok (a + Z.of_nat (rng s 0 mod width))%Z
         (State (heap s) (fun i => rng s (S i))).

(** [np.array([x])] *)
Definition np_array1 (x : loc) : M loc :=
  a <- as_ndarray x ;;
  new (ONdarray (batch_of a)).

(** [np.add(x, s)] *)
Definition np_add (x : loc) (s : Q) : M loc :=
  a <- as_ndarray x ;;
  new (ONdarray (add_scalar a s)).

(** [np.clip(x, lo, hi)] *)
Definition np_clip (x : loc) (lo hi : Q) : M loc :=
  a <- as_ndarray x ;;
  new (ONdarray (clip a lo hi)).

(** [x[i]] on an array, for [i >= 0] *)
Definition nd_getitem (x : loc) (i : nat) : M loc :=
  a <- as_ndarray x ;;
  match a with
  | Arr items =>
      match items !! i with
      | Some r => new (ONdarray r)
      | None => raise IndexError
      end
  | Scalar _ => raise IndexError
  end.

(** [np.argmin(x)] *)
Definition np_argmin (x : loc) : M nat :=
  a <- as_ndarray x ;;
  match argmin (nd_flatten a) with
  | Some i => ret i
  | None => raise ValueError
  end.

(** [for i in range(start, start + count): body(i)] *)
Fixpoint for_range (start count : nat) (body : nat -> M unit) : M unit :=
  match count with
  | 0 => ret tt
  | S c => body start ;;; for_range (S start) c body
  end.

(** A Keras model: [model.predict] maps a batch to its predictions. *)
Definition model : Type := ndarray -> ndarray.

Definition model_predict (m : model) (x : loc) : M loc :=
  a <- as_ndarray x ;;
  new (ONdarray (m a)).

(** [K.variable(x)] copies an array into a backend tensor. *)
Definition K_variable (x : loc) : M ndarray := as_ndarray x.

(** An integer class label handed to the backend as a constant. *)
Definition int_label (c : nat) : ndarray := Scalar (inject_Z (Z.of_nat c)).

(** [a > b] on evaluated losses. *)
Definition py_gt (a b : Q) : bool := negb (Qle_bool a b).

(** ** The script *)

(** [load_data(num_classes)], with the training part of the dataset
    ([x_train], one label per image in [y_train]) as an argument.  Each
    [x_train[i]] is an array object of its own. *)
Definition load_data (x_train : list ndarray) (y_train : list nat)
    (num_classes : nat) : M loc :=
  if negb (length x_train =? length y_train)%nat then raise AssertionError
  else
    let x_train := List.map (nd_map (fun q => (q / 255)%Q)) x_train in
    let total_images := length y_train in
    x <- new (ODict ∅) ;;
    for_range 0 num_classes (fun j =>
      l <- new (OList []) ;;
      dict_setitem x (str j) l) ;;;
    for_range 0 total_images (fun i =>
      match y_train !! i, x_train !! i with
      | Some category, Some image =>
          l <- dict_getitem x (str category) ;;
          im <- new (ONdarray image) ;;
          list_append l im
      | _, _ => raise IndexError
      end) ;;;
    ret x.

(** [get_pure_examples(examples, num_examples, class_)] *)
Definition get_pure_examples (examples : loc) (num_examples class_ : nat)
  : M loc :=
  n_keys <- py_len examples ;;
  low_limit <- random_randint 0
                 (Z.of_nat n_keys - Z.of_nat num_examples - 1) ;;
  class_list <- dict_getitem examples (str class_) ;;
  pure_examples <- list_slice class_list low_limit
                     (low_limit + Z.of_nat num_examples) ;;
  n <- py_len pure_examples ;;
  for_range 0 n (fun i =>
    x <- list_getitem pure_examples i ;;
    b <- np_array1 x ;;
    list_setitem pure_examples i b) ;;;
  ret pure_examples.

Definition default_delta : Q := 1 # 100000.

Section Attacks.

(** The backend loss [K.categorical_crossentropy] of a label and a
    prediction, evaluated with [K.eval]. *)
Variable categorical_crossentropy : ndarray -> ndarray -> Q.

(** [compute_gradient_sign(model, x, y_true, delta)] *)
Definition compute_gradient_sign (m : model) (x : loc) (y_true : ndarray)
    (delta : Q) : M Z :=
  x_delta <- np_add x delta ;;
  y_pred <- model_predict m x ;;
  y_pred_delta <- model_predict m x_delta ;;
  p <- K_variable y_pred ;;
  let loss := categorical_crossentropy y_true p in
  p_delta <- K_variable y_pred_delta ;;
  let loss_delta := categorical_crossentropy y_true p_delta in
  if py_gt loss_delta loss then ret 1%Z else ret (-1)%Z.

(** [least_likely_class(model, examples, class_)] *)
Definition least_likely_class (m : model) (examples : loc) (class_ : nat)
  : M nat :=
  example <- get_pure_examples examples 1 class_ ;;
  example <- list_getitem example 0 ;;
  preds <- model_predict m example ;;
  row <- nd_getitem preds 0 ;;
  np_argmin row.

(** [fast_gradient_sign(model, example, class_, epsilon)] *)
Definition fast_gradient_sign (m : model) (example : loc) (class_ : nat)
    (epsilon : Q) : M loc :=
  gradient_sign <- compute_gradient_sign m example (int_label class_)
                     default_delta ;;
  let epsilon := (epsilon * inject_Z gradient_sign)%Q in
  adv_example <- np_add example epsilon ;;
  adv_example <- np_clip adv_example 0 1 ;;
  ret adv_example.

(** The loop of [basic_iterative]; [alpha] and [adv_example] are the
    variables it updates. *)
Fixpoint basic_iterative_loop (m : model) (class_ : nat) (count : nat)
    (alpha : Q) (adv_example : loc) : M loc :=
  match count with
  | 0 => ret adv_example
  | S count' =>
      gradient_sign <- compute_gradient_sign m adv_example
                         (int_label class_) default_delta ;;
      let alpha := (alpha * inject_Z gradient_sign)%Q in
      adv_example <- np_add adv_example alpha ;;
      adv_example <- np_clip adv_example 0 1 ;;
      basic_iterative_loop m class_ count' alpha adv_example
  end.

(** [basic_iterative(model, example, class_, alpha, epsilon,
    num_iterations)] *)
Definition basic_iterative (m : model) (example : loc) (class_ : nat)
    (alpha epsilon : Q) (num_iterations : nat) : M loc :=
  let adv_example := example in
  basic_iterative_loop m class_ num_iterations alpha adv_example.

(** The loop of [iterative_least_likely_class]. *)
Fixpoint iterative_least_likely_class_loop (m : model) (ll_class : nat)
    (count : nat) (alpha : Q) (adv_example : loc) : M loc :=
  match count with
  | 0 => ret adv_example
  | S count' =>
      gradient_sign <- compute_gradient_sign m adv_example
                         (int_label ll_class) default_delta ;;
      let alpha := (alpha * inject_Z gradient_sign)%Q in
      adv_example <- np_add adv_example alpha ;;
      adv_example <- np_clip adv_example 0 1 ;;
      iterative_least_likely_class_loop m ll_class count' alpha adv_example
  end.

(** [iterative_least_likely_class(model, examples, target_class, alpha,
    epsilon, num_iterations)] *)
Definition iterative_least_likely_class (m : model) (examples : loc)
    (target_class : nat) (alpha epsilon : Q) (num_iterations : nat)
  : M loc :=
  ll_class <- least_likely_class m examples target_class ;;
  ll_class_example <- get_pure_examples examples 1 ll_class ;;
  adv_example <- list_getitem ll_class_example 0 ;;
  iterative_least_likely_class_loop m ll_class num_iterations alpha
    adv_example.

End Attacks.

(** * Vocabulary of the statements *)

(** Induction on arrays, through the lists of sub-arrays. *)
Section ndarray_induction.

Variable P : ndarray -> Prop.
Hypothesis P_scalar : forall q, P (Scalar q).
Hypothesis P_arr : forall items, Forall P items -> P (Arr items).

Fixpoint ndarray_ind (a : ndarray) : P a :=
  match a with
  | Scalar q => P_scalar q
  | Arr items =>
      P_arr items
        ((fix all (l : list ndarray) : Forall P l :=
            match l with
            | [] => Stdlib.Lists.List.Forall_nil P
            | x :: l' =>
                Stdlib.Lists.List.Forall_cons P x l' (ndarray_ind x) (all l')
            end) items)
  end.

End ndarray_induction.

(** [k] is the index of the first entry of [l] that no entry is below. *)
Definition is_first_argmin (l : list Q) (k : nat) : Prop :=
  exists v, l !! k = Some v
    /\ (forall j w, l !! j = Some w -> (v <= w)%Q)
    /\ (forall j w, (j < k)%nat -> l !! j = Some w -> (v < w)%Q).

(** The state after allocating [objs] one after the other. *)
Definition grown (s : state) (objs : list obj) : state :=
  State (heap s ++ objs) (rng s).

Section Values.

Variable cce : ndarray -> ndarray -> Q.

(** The value [compute_gradient_sign] returns on the array [a]. *)
Definition sign_at (m : model) (a y_true : ndarray) (delta : Q) : Z :=
  if py_gt (cce y_true (m (add_scalar a delta))) (cce y_true (m a))
  then 1%Z else (-1)%Z.

(** The array [fast_gradient_sign] builds from the array [a]. *)
Definition fgs_value (m : model) (class_ : nat) (epsilon : Q) (a : ndarray)
  : ndarray :=
  clip (add_scalar a
          (epsilon * inject_Z (sign_at m a (int_label class_) default_delta)))
       0 1.

(** The array the loop of [basic_iterative] reaches from [a]: [alpha] is
    multiplied by each new sign in turn. *)
Fixpoint iterate_value (m : model) (class_ : nat) (count : nat) (alpha : Q)
    (a : ndarray) : ndarray :=
  match count with
  | 0 => a
  | S count' =>
      let alpha :=
        (alpha * inject_Z (sign_at m a (int_label class_) default_delta))%Q in
      iterate_value m class_ count' alpha (clip (add_scalar a alpha) 0 1)
  end.

End Values.

(** The loop of the basic iterative attack as the specification words it:
    every iteration adds the [alpha] of the caller times the sign estimated
    in that iteration. *)
Fixpoint fresh_sign_value (cce : ndarray -> ndarray -> Q) (m : model)
    (class_ : nat) (count : nat) (alpha : Q) (a : ndarray) : ndarray :=
  match count with
  | 0 => a
  | S count' =>
      let step :=
        (alpha * inject_Z (sign_at cce m a (int_label class_) default_delta))%Q
      in
      fresh_sign_value cce m class_ count' alpha (clip (add_scalar a step) 0 1)
  end.

(** The generator after one draw. *)
Definition advance (s : state) : state :=
  State (heap s) (fun i => rng s (S i)).

(** The offset [random.randint(0, hi)] returns in state [s]. *)
Definition drawn_offset (s : state) (hi : Z) : nat :=
  rng s 0 mod Z.to_nat (hi + 1).

(** The upper end of the interval [get_pure_examples] hands to
    [random.randint], for a dictionary with [n_keys] keys. *)
Definition low_limit_max (n_keys num_examples : nat) : Z :=
  Z.of_nat n_keys - Z.of_nat num_examples - 1.

(** The body of the loop of [get_pure_examples]. *)
Definition wrap_item (pure_examples : loc) (i : nat) : M unit :=
  x <- list_getitem pure_examples i ;;
  b <- np_array1 x ;;
  list_setitem pure_examples i b.

Definition batch_obj (a : ndarray) : obj := ONdarray (batch_of a).

(** ** Well-formed example sets *)

(** [l] refers to an array whose value satisfies [p]. *)
Definition holds_ndarray (p : ndarray -> bool) (h : list obj) (l : loc)
  : bool :=
  match h !! l with
  | Some (ONdarray a) => p a
  | _ => false
  end.

(** [l] refers to a list of such arrays. *)
Definition holds_images (p : ndarray -> bool) (h : list obj) (l : loc)
  : bool :=
  match h !! l with
  | Some (OList xs) => forallb (holds_ndarray p h) xs
  | _ => false
  end.

(** [ex] refers to a dictionary whose values are such lists: the shape of
    what [load_data] returns. *)
Definition is_example_set (p : ndarray -> bool) (h : list obj) (ex : loc)
  : bool :=
  match h !! ex with
  | Some (ODict d) =>
      forallb (fun kv => holds_images p h kv.2) (map_to_list d)
  | _ => false
  end.

Definition any_array (a : ndarray) : bool := true.

(** Reading back the value of a list of arrays. *)
Definition read_ndarray (h : list obj) (l : loc) : option ndarray :=
  match h !! l with
  | Some (ONdarray a) => Some a
  | _ => None
  end.

Definition read_batches (h : list obj) (l : loc) : option (list ndarray) :=
  match h !! l with
  | Some (OList items) => mapM (read_ndarray h) items
  | _ => None
  end.

(** The number of examples stored for class [c]. *)
Definition class_length (h : list obj) (ex : loc) (c : nat) : option nat :=
  match h !! ex with
  | Some (ODict d) =>
      match d !! str c with
      | Some ll =>
          match h !! ll with
          | Some (OList xs) => Some (length xs)
          | _ => None
          end
      | None => None
      end
  | _ => None
  end.

(** The interval of offsets as the specification words it: from 0 up to,
    and without, the number of examples of the class minus [n] minus 1. *)
Definition claimed_offset_range (class_len n : nat) (o : Z) : Prop :=
  (0 <= o < Z.of_nat class_len - Z.of_nat n - 1)%Z.

(** ** Frame conditions *)

(** Running [m] from a heap that extends [h0] leaves the objects of [h0]
    as they are, and the value returned satisfies [post]. *)
Definition keeps {A} (h0 : list obj) (m : M A) (post : A -> Prop) : Prop :=
  forall s a s', h0 `prefix_of` heap s -> m s = Ok a s' ->
    h0 `prefix_of` heap s' /\ post a.

Definition anything {A} (a : A) : Prop := True.

(** The reference was allocated after [h0] was taken. *)
Definition newer (h0 : list obj) (l : loc) : Prop := (length h0 <= l)%nat.

(** * Concrete data for examples *)

(** A one-pixel image with raw intensity [q] (0..255). *)
Definition toy_image (q : Q) : ndarray := Arr [Arr [Arr [Scalar q]]].

(** Three classes with three images each. *)
Definition toy_x : list ndarray :=
  [toy_image 0; toy_image 51; toy_image 102;
   toy_image 153; toy_image 204; toy_image 255;
   toy_image 25; toy_image 76; toy_image 127].
Definition toy_y : list nat := [0; 1; 2; 0; 1; 2; 0; 1; 2]%nat.

(** Four classes; class 0 has two images, the others one each. *)
Definition small_x : list ndarray :=
  [toy_image 51; toy_image 102; toy_image 153; toy_image 204; toy_image 255].
Definition small_y : list nat := [0; 0; 1; 2; 3]%nat.

(** The state after [load_data] on a fresh interpreter whose generator
    will output [draws]; the dictionary is the first object allocated. *)
Definition loaded (x_train : list ndarray) (y_train : list nat)
    (num_classes : nat) (draws : nat -> nat) : state :=
  match load_data x_train y_train num_classes (State [] draws) with
  | Ok _ s => s
  | Raise _ => State [] draws
  end.

Definition toy_state (draws : nat -> nat) : state := loaded toy_x toy_y 3 draws.
Definition small_state (draws : nat -> nat) : state :=
  loaded small_x small_y 4 draws.
Definition toy_examples : loc := 0%nat.

(** A loss that does not react to the probe, and a model with a fixed
    prediction. *)
Definition flat_loss (y_true y_pred : ndarray) : Q := 0.
Definition fixed_model : model :=
  fun _ => Arr [Arr [Scalar (1 # 2); Scalar (1 # 10); Scalar (4 # 10)]].

(** ** Comparing two arrays entry by entry *)




(** ** What [load_data] builds *)

(** The training images after [x_train /= 255.0]. *)
Definition normalised (x_train : list ndarray) : list ndarray :=
  List.map (nd_map (fun q => (q / 255)%Q)) x_train.

(** The body of the second loop of [load_data]: file image [i] under its
    label. *)
Definition file_image (x : loc) (x_train : list ndarray) (y_train : list nat)
    (i : nat) : M unit :=
  match y_train !! i, x_train !! i with
  | Some category, Some image =>
      l <- dict_getitem x (str category) ;;
      im <- new (ONdarray image) ;;
      list_append l im
  | _, _ => raise IndexError
  end.

(** The dictionary after the first loop has run [j] times, when the
    dictionary itself sits at reference [p]: class [c] is bound to the
    list allocated in iteration [c]. *)
Fixpoint class_dict (p : loc) (j : nat) : gmap string loc :=
  match j with
  | 0 => ∅
  | S j' => <[str j' := (p + 1 + j')%nat]> (class_dict p j')
  end.

(** The indices below [i] of the images labelled [j], in order. *)
Definition positions (y_train : list nat) (j i : nat) : list nat :=
  List.filter (fun t => bool_decide (y_train !! t = Some j)) (seq 0 i).

(** The heap once the first [i] images are filed: the objects that were
    there, the dictionary, one list per class, the images filed so far. *)
Definition loaded_heap (h : list obj) (k : nat) (y_train : list nat)
    (images : list ndarray) (i : nat) : list obj :=
  h ++ ODict (class_dict (length h) k)
    :: List.map
         (fun j => OList (List.map (fun t => (length h + 1 + k + t)%nat)
                            (positions y_train j i)))
         (seq 0 k)
    ++ List.map ONdarray (take i images).

(** The images labelled [j], in the order of the dataset. *)
Fixpoint images_of_class (images : list ndarray) (labels : list nat) (j : nat)
  : list ndarray :=
  match images, labels with
  | image :: images', label :: labels' =>
      if (label =? j)%nat
      then image :: images_of_class images' labels' j
      else images_of_class images' labels' j
  | _, _ => []
  end.

(** The images stored for class [c] in the example set at [ex]. *)
Definition read_class (h : list obj) (ex : loc) (c : nat)
  : option (list ndarray) :=
  match h !! ex with
  | Some (ODict d) =>
      match d !! str c with
      | Some l => read_batches h l
      | None => None
      end
  | _ => None
  end.

(** Raw intensities: every entry lies in [0,255]. *)
Definition raw_pixels (a : ndarray) : bool :=
  nd_all (fun q => Qle_bool 0 q && Qle_bool q 255) a.

(** ** The driver (the [__main__] block)

    The model read by [load_model] and the dataset read by
    [cifar10.load_data] are arguments.  Each [print] appends one line to
    the output; a line is the format string of the statement with the
    values it is filled with.  What was printed stays printed when the run
    ends with an uncaught exception. *)

Inductive line : Type :=
  | TestingOnPureClass (test_class : nat)
  | PredictionOnPure (prediction : nat)
  | HeaderFastGradientSign
  | PredictionWithEpsilon (epsilon : Q) (prediction : nat)
  | HeaderBasicIterative
  | PredictionWithEpsilonAlpha (epsilon alpha : Q) (prediction : nat)
  | HeaderLeastLikely (target_class : nat)
  | Rule.

(** How a run stops short: an exception of the functions above, or the
    use of a name that is not bound. *)
Inductive crash : Type :=
  | Uncaught (e : exn)
  | NameError.

Inductive outcome (A : Type) : Type :=
  | Done (a : A) (out : list line) (s : state)
  | Crashed (why : crash) (out : list line).
Arguments Done {A} a out s.
Arguments Crashed {A} why out.

(** A statement of the driver: from the output so far and the state. *)
Definition D (A : Type) : Type := list line -> state -> outcome A.

Definition dret {A} (a : A) : D A := fun out s => Done a out s.

Definition dbind {A B} (m : D A) (k : A -> D B) : D B :=
  fun out s =>
    match m out s with
    | Done a out' s' => k a out' s'
    | Crashed why out' => Crashed why out'
    end.

(** A call of one of the functions of the script. *)
Definition call {A} (m : M A) : D A :=
  fun out s =>
    match m s with
    | Ok a s' => Done a out s'
    | Raise e => Crashed (Uncaught e) out
    end.

Definition print (l : line) : D unit := fun out s => Done tt (out ++ [l]) s.

(** The value of a variable of the driver; [None] is a name not bound
    yet. *)
Definition name_value {A} (binding : option A) : D A :=
  match binding with
  | Some v => dret v
  | None => fun out _ => Crashed NameError out
  end.

Declare Scope driver_scope.
Delimit Scope driver_scope with driver.
Notation "x <-- m ;; k" := (dbind m (fun x => k))
  (at level 100, m at next level, right associativity) : driver_scope.
Notation "m ;;;; k" := (dbind m (fun _ => k))
  (at level 100, right associativity) : driver_scope.

(** [for x in l: body]; the result is the binding of [x] after the loop:
    the last element, or the binding before the loop when [l] is empty. *)
Fixpoint for_in {A} (l : list A) (binding : option A) (body : A -> D unit)
  : D (option A) :=
  match l with
  | [] => dret binding
  | x :: l' => dbind (body x) (fun _ => for_in l' (Some x) body)
  end.

(** [np.argmax] on the flattened entries: index of the first maximum. *)
Fixpoint argmax_from (best_i : nat) (best : Q) (i : nat) (l : list Q) : nat :=
  match l with
  | [] => best_i
  | q :: l' =>
      match (q ?= best)%Q with
      | Gt => argmax_from i q (S i) l'
      | _ => argmax_from best_i best (S i) l'
      end
  end.

Definition argmax (l : list Q) : option nat :=
  match l with
  | [] => None
  | q :: l' => Some (argmax_from 0 q 1 l')
  end.

(** [np.argmax(x)] *)
Definition np_argmax (x : loc) : M nat :=
  a <- as_ndarray x ;;
  match argmax (nd_flatten a) with
  | Some i => ret i
  | None => raise ValueError
  end.

Definition NUM_CLASSES : nat := 10.

(** [[x/10 for x in range(start, start + count)]] *)
Definition tenths (start count : nat) : list Q :=
  List.map (fun x => (inject_Z (Z.of_nat x) / 10)%Q) (seq start count).

Section Driver.

Variable cce : ndarray -> ndarray -> Q.
Variable m : model.

(** [np.argmax(model.predict(x))] *)
Definition predicted_class (x : loc) : M nat :=
  preds <- model_predict m x ;;
  np_argmax preds.

(** The body of the loop over the sampled examples; [epsilon] is the
    binding of the variable of that name when the body starts, the result
    is its binding when the body ends. *)
Definition report_example (examples pure_examples : loc)
    (test_class target_class : nat) (alphas epsilons : list Q)
    (num_iters : nat) (i : nat) (epsilon : option Q) : D (option Q) :=
  (x <-- call (list_getitem pure_examples i) ;;
   k <-- call (predicted_class x) ;;
   print (PredictionOnPure k) ;;;;
   print HeaderFastGradientSign ;;;;
   epsilon <-- for_in epsilons epsilon (fun epsilon =>
     x <-- call (list_getitem pure_examples i) ;;
     adversarial_example <--
       call (fast_gradient_sign cce m x test_class epsilon) ;;
     k <-- call (predicted_class adversarial_example) ;;
     print (PredictionWithEpsilon epsilon k)) ;;
   print HeaderBasicIterative ;;;;
   for_in alphas None (fun alpha =>
     x <-- call (list_getitem pure_examples i) ;;
     adversarial_example <--
       call (basic_iterative cce m x test_class alpha (1 # 2) num_iters) ;;
     shown <-- name_value epsilon ;;
     k <-- call (predicted_class adversarial_example) ;;
     print (PredictionWithEpsilonAlpha shown alpha k)) ;;;;
   print (HeaderLeastLikely target_class) ;;;;
   for_in alphas None (fun alpha =>
     adversarial_example <--
       call (iterative_least_likely_class cce m examples target_class alpha
               (1 # 2) num_iters) ;;
     shown <-- name_value epsilon ;;
     k <-- call (predicted_class adversarial_example) ;;
     print (PredictionWithEpsilonAlpha shown alpha k)) ;;;;
   print Rule ;;;;
   dret epsilon)%driver.

(** [for i in range(start, start + count)] over the sampled examples. *)
Fixpoint report_examples (examples pure_examples : loc)
    (test_class target_class : nat) (alphas epsilons : list Q)
    (num_iters : nat) (start count : nat) (epsilon : option Q) : D unit :=
  match count with
  | 0 => dret tt
  | S count' =>
      dbind (report_example examples pure_examples test_class target_class
               alphas epsilons num_iters start epsilon)
        (fun epsilon =>
           report_examples examples pure_examples test_class target_class
             alphas epsilons num_iters (S start) count' epsilon)
  end.

(** The [__main__] block. *)
Definition main (x_train : list ndarray) (y_train : list nat) : D unit :=
  (examples <-- call (load_data x_train y_train NUM_CLASSES) ;;
   let test_class := 5%nat in
   let target_class := 0%nat in
   let alphas := tenths 20 10 in
   let epsilons := tenths 5 15 in
   let num_iters := 20%nat in
   pure_examples <-- call (get_pure_examples examples 2 test_class) ;;
   print (TestingOnPureClass test_class) ;;;;
   n <-- call (py_len pure_examples) ;;
   report_examples examples pure_examples test_class target_class alphas
     epsilons num_iters 0 n None)%driver.

End Driver.

(** ** Statements about the driver *)

(** Started with an output that satisfies [I], the statement [m] ends with
    an output that satisfies [I]; it returns a value that satisfies [Q], or
    stops for a reason that satisfies [C]. *)
Definition driver_keeps {A} (I : list line -> Prop) (C : crash -> Prop)
    (m : D A) (Q : A -> Prop) : Prop :=
  forall out s, I out ->
    match m out s with
    | Done a out' _ => I out' /\ Q a
    | Crashed why out' => I out' /\ C why
    end.

(** The line, when it reports an iterative attack, shows [e] as its
    epsilon. *)
Definition shows_epsilon (e : Q) (l : line) : Prop :=
  match l with
  | PredictionWithEpsilonAlpha e' _ _ => e' = e
  | _ => True
  end.

(** The binding of the loop variable after [for x in l]. *)
Definition binding_after {A} (l : list A) (binding : option A) : option A :=
  fold_left (fun _ x => Some x) l binding.

(** The output printed by a run, finished or not. *)
Definition printed {A} (r : outcome A) : list line :=
  match r with
  | Done _ out _ => out
  | Crashed _ out => out
  end.

(** A dataset for the driver: two images of class 5, one of class 0 and
    one of class 1. *)
Definition driver_x : list ndarray :=
  [toy_image 51; toy_image 102; toy_image 153; toy_image 204].
Definition driver_y : list nat := [5; 5; 0; 1]%nat.

(** ** The estimator on batches of any size

    [compute_gradient_sign] above takes the evaluated loss of a batch as
    one number, which is what it is on the single-example batches of this
    script.  Here the loss is what Keras returns in general, one number
    per example of the batch, the comparison [>] is taken entry by entry,
    and [if] asks for the truth value of the array of booleans.  The
    addition [np.add] is an argument, so that nothing depends on how it
    rounds. *)

Module PerExample.

Section Estimator.

(** [np.add(a, s)] on the value of an array. *)
Variable add : ndarray -> Q -> ndarray.

(** [K.eval(K.categorical_crossentropy(..))]: one loss per example. *)
Variable categorical_crossentropy : ndarray -> ndarray -> list Q.

(** [np.add(x, s)] *)
Definition np_add (x : loc) (s : Q) : M loc :=
  a <- as_ndarray x ;;
  new (ONdarray (add a s)).

(** [a > b] on two arrays of numbers: entry by entry, an array of one
    entry being stretched to the length of the other; other lengths do not
    go together. *)
Definition array_gt (a b : list Q) : M (list bool) :=
  if (length a =? length b)%nat then ret (zip_with py_gt a b)
  else
    match a, b with
    | [x], _ => ret (List.map (fun y => py_gt x y) b)
    | _, [y] => ret (List.map (fun x => py_gt x y) a)
    | _, _ => raise ValueError
    end.

(** The truth value [if] takes of an array of booleans: its entry when it
    has one, false when it has none, an error when it has several. *)
Definition truth_value (bs : list bool) : M bool :=
  match bs with
  | [] => ret false
  | [b] => ret b
  | _ => raise ValueError
  end.

(** [compute_gradient_sign(model, x, y_true, delta)] *)
Definition compute_gradient_sign (m : model) (x : loc) (y_true : ndarray)
    (delta : Q) : M Z :=
  x_delta <- np_add x delta ;;
  y_pred <- model_predict m x ;;
  y_pred_delta <- model_predict m x_delta ;;
  p <- K_variable y_pred ;;
  let loss := categorical_crossentropy y_true p in
  p_delta <- K_variable y_pred_delta ;;
  let loss_delta := categorical_crossentropy y_true p_delta in
  greater <- array_gt loss_delta loss ;;
  positive <- truth_value greater ;;
  if positive then ret 1%Z else ret (-1)%Z.

End Estimator.

End PerExample.

(** The number of raw draws among [raws] for which
    [random.randint(0, hi)] returns [k]. *)
Definition draws_giving (h : list obj) (hi : Z) (k : nat) (raws : list nat)
  : nat :=
  length
    (List.filter
       (fun raw =>
          match random_randint 0 hi (State h (fun _ => raw)) with
          | Ok z _ => (z =? Z.of_nat k)%Z
          | Raise _ => false
          end)
       raws).

(** One class with three images. *)
Definition lone_x : list ndarray := [toy_image 51; toy_image 102; toy_image 153].
Definition lone_y : list nat := [0; 0; 0]%nat.
Definition lone_state (draws : nat -> nat) : state := loaded lone_x lone_y 1 draws.

(** A batch of two examples, a model that predicts the same row for every
    example, and a loss that is 0 for every example. *)
Definition two_examples : ndarray := Arr [toy_image (1 # 5); toy_image (2 # 5)].
Definition row_model : model :=
  fun batch =>
    match batch with
    | Arr items => Arr (List.map (fun _ => Arr [Scalar (1 # 2); Scalar (1 # 2)]) items)
    | Scalar _ => Arr []
    end.
Definition zero_losses (y_true y_pred : ndarray) : list Q :=
  match y_pred with
  | Arr rows => List.map (fun _ => 0%Q) rows
  | Scalar _ => []
  end.

(** * Arrays: induction, clipping, argmin *)

Lemma clip_scalar_in_unit_interval (q : Q) :
  in_unit_interval (clip_scalar 0 1 q) = true.
Proof.
  unfold in_unit_interval, clip_scalar.
  apply andb_true_intro; split; apply Qle_bool_iff.
  - apply Q.min_glb; [discriminate | apply Q.le_max_l].
  - apply Q.le_min_l.
Qed.

Lemma nd_all_map (p : Q -> bool) (f : Q -> Q) (a : ndarray) :
  (forall q, p (f q) = true) -> nd_all p (nd_map f a) = true.
Proof.
  intros Hf. induction a as [q | items IH] using ndarray_ind; simpl.
  - apply Hf.
  - induction IH as [| x l Hx _ IHl]; simpl; [reflexivity |].
    rewrite Hx, IHl. reflexivity.
Qed.

Lemma clip_pixels_in_01 (a : ndarray) : pixels_in_01 (clip a 0 1) = true.
Proof. apply nd_all_map, clip_scalar_in_unit_interval. Qed.

Lemma batch_of_pixels_in_01 (a : ndarray) :
  pixels_in_01 (batch_of a) = pixels_in_01 a.
Proof. unfold pixels_in_01, batch_of. simpl. apply andb_true_r. Qed.

Lemma argmin_from_spec (l pre : list Q) (best_i : nat) :
  is_first_argmin pre best_i ->
  forall best, pre !! best_i = Some best ->
  is_first_argmin (pre ++ l) (argmin_from best_i best (length pre) l).
Proof.
  revert pre best_i.
  induction l as [| q l IH]; intros pre best_i Hpre best Hbest; simpl.
  - rewrite app_nil_r. exact Hpre.
  - destruct Hpre as (v & Hv & Hmin & Hfirst).
    assert (v = best) as -> by congruence.
    replace (pre ++ q :: l) with ((pre ++ [q]) ++ l)
      by (rewrite <- app_assoc; reflexivity).
    replace (S (length pre)) with (length (pre ++ [q]))
      by (rewrite length_app; simpl; lia).
    destruct (q ?= best)%Q eqn:Hcmp.
    + apply Qeq_alt in Hcmp.
      apply IH; [| rewrite lookup_app_l; eauto using lookup_lt_Some].
      exists best. split; [rewrite lookup_app_l; eauto using lookup_lt_Some |].
      split.
      * intros j w Hj. apply lookup_app_Some in Hj as [Hj | [_ Hj]]; eauto.
        apply list_lookup_singleton_Some in Hj as [_ <-].
        rewrite Hcmp. apply Qle_refl.
      * intros j w Hlt Hj. apply lookup_app_Some in Hj as [Hj | [Hge _]]; eauto.
        apply lookup_lt_Some in Hbest. lia.
    + apply Qlt_alt in Hcmp.
      apply IH with (best := q);
        [| rewrite lookup_app_r, Nat.sub_diag by lia; reflexivity].
      exists q. split; [rewrite lookup_app_r, Nat.sub_diag by lia; reflexivity |].
      split.
      * intros j w Hj. apply lookup_app_Some in Hj as [Hj | [_ Hj]].
        -- apply Qlt_le_weak, Qlt_le_trans with best; eauto.
        -- apply list_lookup_singleton_Some in Hj as [_ <-]. apply Qle_refl.
      * intros j w Hlt Hj. apply lookup_app_Some in Hj as [Hj | [Hge _]];
          [| lia].
        apply Qlt_le_trans with best; eauto.
    + apply Qgt_alt in Hcmp.
      apply IH; [| rewrite lookup_app_l; eauto using lookup_lt_Some].
      exists best. split; [rewrite lookup_app_l; eauto using lookup_lt_Some |].
      split.
      * intros j w Hj. apply lookup_app_Some in Hj as [Hj | [_ Hj]]; eauto.
        apply list_lookup_singleton_Some in Hj as [_ <-].
        apply Qlt_le_weak, Hcmp.
      * intros j w Hlt Hj. apply lookup_app_Some in Hj as [Hj | [Hge _]]; eauto.
        apply lookup_lt_Some in Hbest. lia.
Qed.

Lemma argmin_spec (q : Q) (l : list Q) :
  exists k, argmin (q :: l) = Some k /\ is_first_argmin (q :: l) k.
Proof.
  eexists; split; [reflexivity |].
  apply (argmin_from_spec l [q] 0 ltac:(
    exists q; split; [reflexivity |]; split;
    [ intros [| j] w Hj; simpl in Hj; [injection Hj as <-; apply Qle_refl | discriminate]
    | intros j w Hlt; lia ]) q eq_refl).
Qed.

(** * Running programs *)

Lemma bind_Ok {A B} (m : M A) (k : A -> M B) s a s1 :
  m s = Ok a s1 -> bind m k s = k a s1.
Proof. unfold bind. intros ->. reflexivity. Qed.

Lemma bind_Raise {A B} (m : M A) (k : A -> M B) s e :
  m s = Raise e -> bind m k s = Raise e.
Proof. unfold bind. intros ->. reflexivity. Qed.

Lemma bind_Ok_inv {A B} (m : M A) (k : A -> M B) s b s2 :
  bind m k s = Ok b s2 -> exists a s1, m s = Ok a s1 /\ k a s1 = Ok b s2.
Proof. unfold bind. destruct (m s) as [a s1 |]; [eauto | discriminate]. Qed.

Lemma bind_ext {A B} (m : M A) (k1 k2 : A -> M B) s :
  (forall a s1, k1 a s1 = k2 a s1) -> bind m k1 s = bind m k2 s.
Proof. intros H. unfold bind. destruct (m s); [apply H | reflexivity]. Qed.

Lemma deref_Ok l o s : heap s !! l = Some o -> deref l s = Ok o s.
Proof. unfold deref. intros ->. reflexivity. Qed.

Lemma deref_Ok_inv l o s s' :
  deref l s = Ok o s' -> s' = s /\ heap s !! l = Some o.
Proof.
  unfold deref. destruct (heap s !! l); [| discriminate].
  intros [= -> ->]. auto.
Qed.

Lemma as_ndarray_Ok l a s :
  heap s !! l = Some (ONdarray a) -> as_ndarray l s = Ok a s.
Proof. intros H. unfold as_ndarray. rewrite (bind_Ok _ _ _ _ _ (deref_Ok _ _ _ H)). reflexivity. Qed.

Lemma as_list_Ok l items s :
  heap s !! l = Some (OList items) -> as_list l s = Ok items s.
Proof. intros H. unfold as_list. rewrite (bind_Ok _ _ _ _ _ (deref_Ok _ _ _ H)). reflexivity. Qed.

Lemma as_dict_Ok l d s :
  heap s !! l = Some (ODict d) -> as_dict l s = Ok d s.
Proof. intros H. unfold as_dict. rewrite (bind_Ok _ _ _ _ _ (deref_Ok _ _ _ H)). reflexivity. Qed.

Lemma as_ndarray_Ok_inv l a s s' :
  as_ndarray l s = Ok a s' -> s' = s /\ heap s !! l = Some (ONdarray a).
Proof.
  intros H. apply bind_Ok_inv in H as (o & s1 & H1 & H2).
  apply deref_Ok_inv in H1 as [-> H1].
  destruct o; try discriminate. injection H2 as -> ->. auto.
Qed.

Lemma as_list_Ok_inv l items s s' :
  as_list l s = Ok items s' -> s' = s /\ heap s !! l = Some (OList items).
Proof.
  intros H. apply bind_Ok_inv in H as (o & s1 & H1 & H2).
  apply deref_Ok_inv in H1 as [-> H1].
  destruct o; try discriminate. injection H2 as -> ->. auto.
Qed.

Lemma as_dict_Ok_inv l d s s' :
  as_dict l s = Ok d s' -> s' = s /\ heap s !! l = Some (ODict d).
Proof.
  intros H. apply bind_Ok_inv in H as (o & s1 & H1 & H2).
  apply deref_Ok_inv in H1 as [-> H1].
  destruct o; try discriminate. injection H2 as -> ->. auto.
Qed.

Lemma grown_nil s : grown s [] = s.
Proof. destruct s. unfold grown. simpl. rewrite app_nil_r. reflexivity. Qed.

Lemma grown_grown s o1 o2 : grown (grown s o1) o2 = grown s (o1 ++ o2).
Proof. unfold grown. simpl. rewrite app_assoc. reflexivity. Qed.

Lemma heap_grown_lookup s objs l o :
  heap s !! l = Some o -> heap (grown s objs) !! l = Some o.
Proof. intros H. simpl. apply lookup_app_l_Some, H. Qed.

Lemma heap_grown_new s objs o :
  heap (grown s (objs ++ [o])) !! (length (heap s) + length objs)%nat = Some o.
Proof.
  simpl. rewrite app_assoc, lookup_app_r by (rewrite length_app; lia).
  rewrite length_app, Nat.sub_diag. reflexivity.
Qed.

Lemma new_Ok o s : new o s = Ok (length (heap s)) (grown s [o]).
Proof. reflexivity. Qed.

Lemma np_add_Ok x q a s :
  heap s !! x = Some (ONdarray a) ->
  np_add x q s = Ok (length (heap s)) (grown s [ONdarray (add_scalar a q)]).
Proof. intros H. unfold np_add. rewrite (bind_Ok _ _ _ _ _ (as_ndarray_Ok _ _ _ H)). reflexivity. Qed.

Lemma np_clip_Ok x lo hi a s :
  heap s !! x = Some (ONdarray a) ->
  np_clip x lo hi s = Ok (length (heap s)) (grown s [ONdarray (clip a lo hi)]).
Proof. intros H. unfold np_clip. rewrite (bind_Ok _ _ _ _ _ (as_ndarray_Ok _ _ _ H)). reflexivity. Qed.

Lemma np_array1_Ok x a s :
  heap s !! x = Some (ONdarray a) ->
  np_array1 x s = Ok (length (heap s)) (grown s [ONdarray (batch_of a)]).
Proof. intros H. unfold np_array1. rewrite (bind_Ok _ _ _ _ _ (as_ndarray_Ok _ _ _ H)). reflexivity. Qed.

Lemma model_predict_Ok m x a s :
  heap s !! x = Some (ONdarray a) ->
  model_predict m x s = Ok (length (heap s)) (grown s [ONdarray (m a)]).
Proof. intros H. unfold model_predict. rewrite (bind_Ok _ _ _ _ _ (as_ndarray_Ok _ _ _ H)). reflexivity. Qed.

Lemma list_getitem_Ok l items i v s :
  heap s !! l = Some (OList items) -> items !! i = Some v ->
  list_getitem l i s = Ok v s.
Proof.
  intros H Hi. unfold list_getitem.
  rewrite (bind_Ok _ _ _ _ _ (as_list_Ok _ _ _ H)), Hi. reflexivity.
Qed.

Lemma list_getitem_Ok_inv l i v s s' :
  list_getitem l i s = Ok v s' ->
  s' = s /\ exists items, heap s !! l = Some (OList items) /\ items !! i = Some v.
Proof.
  intros H. apply bind_Ok_inv in H as (items & s1 & H1 & H2).
  apply as_list_Ok_inv in H1 as [-> H1].
  destruct (items !! i) eqn:Hi; [| discriminate].
  injection H2 as -> ->. eauto.
Qed.

Lemma lookup_new s o : heap (grown s [o]) !! length (heap s) = Some o.
Proof. simpl. apply list_lookup_middle. reflexivity. Qed.

Lemma heap_grown_prefix s objs : heap s `prefix_of` heap (grown s objs).
Proof. simpl. apply prefix_app_r. reflexivity. Qed.

(** Reading a reference in a state reached by allocations only. *)
Ltac heap_lookup :=
  repeat first [ eassumption | apply lookup_new | apply heap_grown_lookup ].

(** One step of symbolic execution: run the head of a [bind] with the
    equation [E] for it. *)
Ltac run_with E := rewrite (bind_Ok _ _ _ _ _ E).

Section AttackProperties.

Variable cce : ndarray -> ndarray -> Q.


Lemma compute_gradient_sign_Ok m x y d a s :
  heap s !! x = Some (ONdarray a) ->
  compute_gradient_sign cce m x y d s
  = Ok (sign_at cce m a y d)
       (grown s [ONdarray (add_scalar a d); ONdarray (m a);
                 ONdarray (m (add_scalar a d))]).
Proof.
  intros H. unfold compute_gradient_sign.
  run_with (np_add_Ok x d a s H).
  erewrite bind_Ok by (apply model_predict_Ok; heap_lookup).
  erewrite bind_Ok by (apply model_predict_Ok; heap_lookup).
  unfold K_variable.
  erewrite bind_Ok by (apply as_ndarray_Ok; heap_lookup).
  erewrite bind_Ok by (apply as_ndarray_Ok; heap_lookup).
  rewrite !grown_grown. simpl app. unfold sign_at.
  destruct (py_gt _ _); reflexivity.
Qed.

Lemma compute_gradient_sign_Ok_inv m x y d z s s' :
  compute_gradient_sign cce m x y d s = Ok z s' ->
  exists a, heap s !! x = Some (ONdarray a).
Proof.
  intros H. apply bind_Ok_inv in H as (l & s1 & H1 & _).
  apply bind_Ok_inv in H1 as (a & s2 & H1 & _).
  apply as_ndarray_Ok_inv in H1 as [_ H1]. eauto.
Qed.

Lemma fast_gradient_sign_Ok m x c eps a s :
  heap s !! x = Some (ONdarray a) ->
  exists r s',
    fast_gradient_sign cce m x c eps s = Ok r s'
    /\ heap s' !! r = Some (ONdarray (fgs_value cce m c eps a))
    /\ heap s `prefix_of` heap s' /\ rng s' = rng s.
Proof.
  intros H. unfold fast_gradient_sign.
  run_with (compute_gradient_sign_Ok m x (int_label c) default_delta a s H).
  erewrite bind_Ok by (apply np_add_Ok; heap_lookup).
  erewrite bind_Ok by (apply np_clip_Ok; heap_lookup).
  unfold ret. do 2 eexists. split; [reflexivity |].
  split; [apply lookup_new |].
  split; [| reflexivity].
  rewrite !grown_grown. apply heap_grown_prefix.
Qed.

Lemma iterate_value_in_01 m c n alpha a :
  pixels_in_01 a = true \/ (0 < n)%nat ->
  pixels_in_01 (iterate_value cce m c n alpha a) = true.
Proof.
  revert alpha a. induction n as [| n IH]; intros alpha a Ha; simpl.
  - destruct Ha as [Ha | Ha]; [exact Ha | lia].
  - apply IH. left. apply clip_pixels_in_01.
Qed.

Lemma basic_iterative_loop_Ok m c n alpha x a s :
  heap s !! x = Some (ONdarray a) ->
  exists r s',
    basic_iterative_loop cce m c n alpha x s = Ok r s'
    /\ heap s' !! r = Some (ONdarray (iterate_value cce m c n alpha a))
    /\ heap s `prefix_of` heap s' /\ rng s' = rng s.
Proof.
  revert alpha x a s. induction n as [| n IH]; intros alpha x a s H; simpl.
  - exists x, s. auto.
  - run_with (compute_gradient_sign_Ok m x (int_label c) default_delta a s H).
    erewrite bind_Ok by (apply np_add_Ok; heap_lookup).
    erewrite bind_Ok by (apply np_clip_Ok; heap_lookup).
    edestruct IH as (r & s' & Hrun & Hr & Hpre & Hrng); [apply lookup_new |].
    exists r, s'. split; [exact Hrun |]. split; [exact Hr |].
    split; [| rewrite Hrng; reflexivity].
    etrans; [| exact Hpre]. rewrite !grown_grown. apply heap_grown_prefix.
Qed.

Lemma iterative_least_likely_class_loop_eq m c n alpha x s :
  iterative_least_likely_class_loop cce m c n alpha x s
  = basic_iterative_loop cce m c n alpha x s.
Proof.
  revert alpha x s. induction n as [| n IH]; intros alpha x s; simpl.
  - reflexivity.
  - apply bind_ext; intros g s1.
    apply bind_ext; intros y s2.
    apply bind_ext; intros w s3.
    apply IH.
Qed.

End AttackProperties.

(** * The example sampler *)

Lemma py_slice_nonneg {A} (l : list A) (o n : nat) :
  py_slice l (Z.of_nat o) (Z.of_nat o + Z.of_nat n) = take n (drop o l).
Proof.
  unfold py_slice, slice_bound.
  destruct (Z.ltb_spec (Z.of_nat o) 0); [lia |].
  destruct (Z.ltb_spec (Z.of_nat o + Z.of_nat n) 0); [lia |].
  destruct (decide (length l <= o)%nat) as [Hge | Hlt].
  - rewrite !Z.min_r, Nat2Z.id by lia.
    rewrite (drop_ge l o), (drop_ge l (length l)) by lia.
    rewrite !take_nil. reflexivity.
  - rewrite (Z.min_l (Z.of_nat o)), Nat2Z.id by lia.
    destruct (decide (o + n <= length l)%nat).
    + rewrite Z.min_l by lia. f_equal. lia.
    + rewrite Z.min_r by lia.
      rewrite !take_ge; [reflexivity | |]; rewrite length_drop; lia.
Qed.

Lemma random_randint_Ok s hi :
  (0 <= hi)%Z ->
  random_randint 0 hi s = Ok (Z.of_nat (drawn_offset s hi)) (advance s).
Proof.
  intros H. unfold random_randint.
  destruct (Z.ltb_spec hi 0); [lia |].
  unfold drawn_offset, advance. rewrite Z.sub_0_r. reflexivity.
Qed.

Lemma random_randint_Raise s hi :
  (hi < 0)%Z -> random_randint 0 hi s = Raise ValueError.
Proof.
  intros H. unfold random_randint.
  destruct (Z.ltb_spec hi 0); [reflexivity | lia].
Qed.

Lemma drawn_offset_range s hi :
  (0 <= hi)%Z -> (Z.of_nat (drawn_offset s hi) <= hi)%Z.
Proof.
  intros H. unfold drawn_offset.
  pose proof (Nat.mod_upper_bound (rng s 0) (Z.to_nat (hi + 1))). lia.
Qed.

Lemma drawn_offset_raw s hi :
  (Z.of_nat (rng s 0) <= hi)%Z -> drawn_offset s hi = rng s 0.
Proof. intros H. unfold drawn_offset. apply Nat.mod_small. lia. Qed.

(** The loop replaces the references of the slice, one by one, by
    references to new single-example batches. *)
Lemma wrap_loop_Ok (h : list obj) (g : nat -> nat) sl imgs :
  Forall2 (fun x a => h !! x = Some (ONdarray a)) sl imgs ->
  forall c i, (i + c = length sl)%nat ->
  for_range i c (wrap_item (length h))
    (State (h ++ OList (seq (S (length h)) i ++ drop i sl)
              :: List.map batch_obj (take i imgs)) g)
  = Ok tt
      (State (h ++ OList (seq (S (length h)) (i + c) ++ drop (i + c) sl)
                :: List.map batch_obj (take (i + c) imgs)) g).
Proof.
  intros Himgs. pose proof (Forall2_length _ _ _ Himgs) as Hlen.
  induction c as [| c IH]; intros i Hi; simpl.
  - rewrite Nat.add_0_r. reflexivity.
  - destruct (lookup_lt_is_Some_2 sl i) as [x Hx]; [lia |].
    destruct (Forall2_lookup_l _ _ _ _ _ Himgs Hx) as (a & Ha & Hxa).
    set (items := seq (S (length h)) i ++ drop i sl).
    set (rest := List.map batch_obj (take i imgs)).
    assert (Hrest : length rest = i).
    { unfold rest. rewrite length_map, length_take. lia. }
    assert (Hitems : items !! i = Some x).
    { unfold items. rewrite lookup_app_r by (rewrite length_seq; lia).
      rewrite length_seq, Nat.sub_diag, lookup_drop, Nat.add_0_r. exact Hx. }
    unfold wrap_item at 1.
    erewrite bind_Ok; cycle 1.
    { erewrite bind_Ok; cycle 1.
      { eapply list_getitem_Ok; [| exact Hitems].
        simpl. apply list_lookup_middle. reflexivity. }
      erewrite bind_Ok; cycle 1.
      { apply np_array1_Ok. simpl. apply lookup_app_l_Some, Hxa. }
      unfold list_setitem. erewrite bind_Ok; cycle 1.
      { apply as_list_Ok. simpl. rewrite <- app_assoc. simpl.
        apply list_lookup_middle. reflexivity. }
      case_decide as Hn; [unfold assign; reflexivity |].
      exfalso. apply Hn. eapply lookup_lt_Some, Hitems. }
    replace (i + S c)%nat with (S i + c)%nat by lia.
    rewrite <- (IH (S i)) by lia. f_equal. f_equal.
    simpl. rewrite <- app_assoc. simpl.
    rewrite insert_app_r_alt, Nat.sub_diag by lia. simpl.
    f_equal. f_equal.
    + f_equal. unfold items.
      rewrite insert_app_r_alt, length_seq, Nat.sub_diag
        by (rewrite length_seq; lia).
      rewrite (drop_S _ _ _ Hx). simpl.
      change (S (length h) :: seq (S (S (length h))) i ++ drop (S i) sl)
        with (seq (S (length h)) (S i) ++ drop (S i) sl).
      rewrite seq_S, <- app_assoc. simpl.
      rewrite length_app. simpl. rewrite Hrest.
      do 2 f_equal. lia.
    + unfold rest. rewrite (take_S_r _ _ _ Ha), map_app. reflexivity.
Qed.

Lemma py_len_dict_Ok x d s :
  heap s !! x = Some (ODict d) -> py_len x s = Ok (size d) s.
Proof.
  intros H. unfold py_len. run_with (deref_Ok _ _ _ H). reflexivity.
Qed.

Lemma py_len_list_Ok x items s :
  heap s !! x = Some (OList items) -> py_len x s = Ok (length items) s.
Proof.
  intros H. unfold py_len. run_with (deref_Ok _ _ _ H). reflexivity.
Qed.

(** What a successful call of the sampler does: the new list object sits
    at the first free reference, followed by one new batch per sampled
    image, and one raw number of the generator is consumed. *)
Lemma get_pure_examples_Ok s ex d n c ll xs imgs :
  heap s !! ex = Some (ODict d) ->
  (0 <= low_limit_max (size d) n)%Z ->
  d !! str c = Some ll ->
  heap s !! ll = Some (OList xs) ->
  Forall2 (fun x a => heap s !! x = Some (ONdarray a))
    (take n (drop (drawn_offset s (low_limit_max (size d) n)) xs)) imgs ->
  get_pure_examples ex n c s
  = Ok (length (heap s))
       (State (heap s
               ++ OList (seq (S (length (heap s))) (length imgs))
               :: List.map batch_obj imgs)
              (fun i => rng s (S i))).
Proof.
  intros Hex Hhi Hc Hll Himgs. unfold get_pure_examples.
  run_with (py_len_dict_Ok _ _ _ Hex).
  fold (low_limit_max (size d) n).
  run_with (random_randint_Ok s _ Hhi).
  unfold dict_getitem.
  erewrite bind_Ok; cycle 1.
  { erewrite bind_Ok by (apply as_dict_Ok; exact Hex).
    rewrite Hc. reflexivity. }
  unfold list_slice.
  erewrite bind_Ok; cycle 1.
  { erewrite bind_Ok by (apply as_list_Ok; exact Hll).
    rewrite py_slice_nonneg. apply new_Ok. }
  set (sl := take n (drop _ xs)) in *.
  erewrite bind_Ok by (apply py_len_list_Ok, lookup_new).
  pose proof (Forall2_length _ _ _ Himgs) as Hlen.
  pose proof (wrap_loop_Ok (heap s) (fun i => rng s (S i)) sl imgs Himgs
                (length sl) 0 eq_refl) as Hloop.
  simpl in Hloop. rewrite drop_all, app_nil_r in Hloop.
  rewrite take_ge in Hloop by lia.
  erewrite bind_Ok by exact Hloop.
  unfold ret. rewrite Hlen. reflexivity.
Qed.

Lemma get_pure_examples_ValueError s ex d n c :
  heap s !! ex = Some (ODict d) ->
  (low_limit_max (size d) n < 0)%Z ->
  get_pure_examples ex n c s = Raise ValueError.
Proof.
  intros Hex Hhi. unfold get_pure_examples.
  run_with (py_len_dict_Ok _ _ _ Hex).
  apply bind_Raise, random_randint_Raise, Hhi.
Qed.

Lemma get_pure_examples_KeyError s ex d n c :
  heap s !! ex = Some (ODict d) ->
  (0 <= low_limit_max (size d) n)%Z ->
  d !! str c = None ->
  get_pure_examples ex n c s = Raise KeyError.
Proof.
  intros Hex Hhi Hc. unfold get_pure_examples.
  run_with (py_len_dict_Ok _ _ _ Hex).
  fold (low_limit_max (size d) n).
  run_with (random_randint_Ok s _ Hhi).
  apply bind_Raise. unfold dict_getitem.
  erewrite bind_Ok by (apply as_dict_Ok; exact Hex).
  rewrite Hc. reflexivity.
Qed.

(** ** Well-formed example sets are stable under allocation *)

Lemma holds_ndarray_prefix p h h' l :
  h `prefix_of` h' -> holds_ndarray p h l = true ->
  holds_ndarray p h' l = true.
Proof.
  intros Hpre. unfold holds_ndarray.
  destruct (h !! l) as [o |] eqn:Hl; [| discriminate].
  rewrite (prefix_lookup_Some _ _ _ _ Hl Hpre). auto.
Qed.

Lemma holds_images_prefix p h h' l :
  h `prefix_of` h' -> holds_images p h l = true ->
  holds_images p h' l = true.
Proof.
  intros Hpre. unfold holds_images.
  destruct (h !! l) as [o |] eqn:Hl; [| discriminate].
  rewrite (prefix_lookup_Some _ _ _ _ Hl Hpre).
  destruct o; try discriminate.
  rewrite !forallb_forall. intros H x Hx.
  eapply holds_ndarray_prefix; eauto.
Qed.

Lemma is_example_set_prefix p h h' ex :
  h `prefix_of` h' -> is_example_set p h ex = true ->
  is_example_set p h' ex = true.
Proof.
  intros Hpre. unfold is_example_set.
  destruct (h !! ex) as [o |] eqn:Hl; [| discriminate].
  rewrite (prefix_lookup_Some _ _ _ _ Hl Hpre).
  destruct o; try discriminate.
  rewrite !forallb_forall. intros H x Hx.
  eapply holds_images_prefix; eauto.
Qed.

Lemma is_example_set_dict p h ex :
  is_example_set p h ex = true -> exists d, h !! ex = Some (ODict d).
Proof.
  unfold is_example_set.
  destruct (h !! ex) as [[d | |] |]; try discriminate. eauto.
Qed.

Lemma is_example_set_class p h ex d key ll :
  is_example_set p h ex = true ->
  h !! ex = Some (ODict d) -> d !! key = Some ll ->
  exists xs, h !! ll = Some (OList xs)
    /\ Forall (fun x => holds_ndarray p h x = true) xs.
Proof.
  unfold is_example_set. intros H Hex Hkey. rewrite Hex in H.
  rewrite forallb_forall in H.
  specialize (H (key, ll)). simpl in H.
  assert (Him : holds_images p h ll = true).
  { apply H, list_elem_of_In, elem_of_map_to_list, Hkey. }
  unfold holds_images in Him.
  destruct (h !! ll) as [[| xs |] |]; try discriminate.
  exists xs. split; [reflexivity |].
  apply Forall_forall. intros x Hx.
  rewrite forallb_forall in Him. apply Him, list_elem_of_In, Hx.
Qed.

Lemma holds_ndarray_read p h xs :
  Forall (fun x => holds_ndarray p h x = true) xs ->
  exists imgs,
    Forall2 (fun x a => h !! x = Some (ONdarray a)) xs imgs
    /\ Forall (fun a => p a = true) imgs.
Proof.
  induction 1 as [| x xs Hx _ (imgs & H2 & Hp)].
  - exists []. split; constructor.
  - unfold holds_ndarray in Hx.
    destruct (h !! x) as [[| | a] |] eqn:Hl; try discriminate.
    exists (a :: imgs). split; constructor; auto.
Qed.

(** * Frame: objects that exist before a call are not touched by it *)

Lemma keeps_ret {A} h0 (a : A) (post : A -> Prop) :
  post a -> keeps h0 (ret a) post.
Proof. intros Hp s a' s' Hpre [= <- <-]. auto. Qed.

Lemma keeps_raise {A} h0 e (post : A -> Prop) : keeps h0 (raise e) post.
Proof. intros s a s' _ H. discriminate. Qed.

Lemma keeps_bind {A B} h0 (m : M A) (k : A -> M B) P Q :
  keeps h0 m P -> (forall a, P a -> keeps h0 (k a) Q) ->
  keeps h0 (bind m k) Q.
Proof.
  intros Hm Hk s b s2 Hpre H.
  apply bind_Ok_inv in H as (a & s1 & H1 & H2).
  destruct (Hm _ _ _ Hpre H1) as [Hpre1 Ha].
  exact (Hk a Ha _ _ _ Hpre1 H2).
Qed.

Lemma keeps_weaken {A} h0 (m : M A) (P Q : A -> Prop) :
  keeps h0 m P -> (forall a, P a -> Q a) -> keeps h0 m Q.
Proof. intros Hm HPQ s a s' Hpre H. destruct (Hm _ _ _ Hpre H). auto. Qed.

Lemma keeps_new h0 o : keeps h0 (new o) (newer h0).
Proof.
  intros s a s' Hpre [= <- <-]. simpl. split.
  - apply prefix_app_r, Hpre.
  - apply prefix_length, Hpre.
Qed.

Lemma keeps_deref h0 l : keeps h0 (deref l) anything.
Proof.
  intros s a s' Hpre H. apply deref_Ok_inv in H as [-> _].
  split; [exact Hpre | exact I].
Qed.

Lemma keeps_assign h0 l o : newer h0 l -> keeps h0 (assign l o) anything.
Proof.
  intros Hl s a s' [k Hk] [= _ <-]. simpl. split; [| exact I].
  rewrite Hk, insert_app_r_alt by exact Hl. eexists. reflexivity.
Qed.

Lemma keeps_random_randint h0 a b : keeps h0 (random_randint a b) anything.
Proof.
  intros s z s' Hpre H. unfold random_randint in H.
  destruct (b <? a)%Z; [discriminate |]. injection H as <- <-.
  split; [exact Hpre | exact I].
Qed.

Create HintDb keeps.
#[local] Hint Resolve keeps_new keeps_deref keeps_random_randint : keeps.
#[local] Hint Extern 0 (anything _) => exact I : keeps.

(** Walk through a program: binds, branches and the primitives above. *)
Ltac keeps_walk :=
  repeat first
    [ apply keeps_raise
    | apply keeps_ret; solve [eauto with keeps]
    | eapply keeps_weaken; [solve [eauto with keeps] | solve [eauto with keeps]]
    | eapply keeps_bind; [solve [eauto with keeps] | intros ? ?]
    | match goal with
      | |- keeps _ (match ?x with _ => _ end) _ => destruct x
      end ].

Lemma keeps_as_dict h0 l : keeps h0 (as_dict l) anything.
Proof. unfold as_dict. keeps_walk. Qed.

Lemma keeps_as_list h0 l : keeps h0 (as_list l) anything.
Proof. unfold as_list. keeps_walk. Qed.

Lemma keeps_as_ndarray h0 l : keeps h0 (as_ndarray l) anything.
Proof. unfold as_ndarray. keeps_walk. Qed.

#[local] Hint Resolve keeps_as_dict keeps_as_list keeps_as_ndarray : keeps.

Lemma keeps_py_len h0 x : keeps h0 (py_len x) anything.
Proof. unfold py_len. keeps_walk. Qed.

Lemma keeps_dict_getitem h0 d key : keeps h0 (dict_getitem d key) anything.
Proof. unfold dict_getitem. keeps_walk. Qed.

Lemma keeps_list_slice h0 l i j : keeps h0 (list_slice l i j) (newer h0).
Proof. unfold list_slice. keeps_walk. Qed.

Lemma keeps_list_getitem h0 l i : keeps h0 (list_getitem l i) anything.
Proof. unfold list_getitem. keeps_walk. Qed.

Lemma keeps_list_setitem h0 l i v :
  newer h0 l -> keeps h0 (list_setitem l i v) anything.
Proof.
  intros Hl. unfold list_setitem.
  eapply keeps_bind; [apply keeps_as_list | intros items _].
  case_decide; [apply keeps_assign, Hl | apply keeps_raise].
Qed.

Lemma keeps_np_array1 h0 x : keeps h0 (np_array1 x) anything.
Proof. unfold np_array1. keeps_walk. Qed.

Lemma keeps_np_add h0 x q : keeps h0 (np_add x q) anything.
Proof. unfold np_add. keeps_walk. Qed.

Lemma keeps_np_clip h0 x lo hi : keeps h0 (np_clip x lo hi) anything.
Proof. unfold np_clip. keeps_walk. Qed.

Lemma keeps_nd_getitem h0 x i : keeps h0 (nd_getitem x i) anything.
Proof. unfold nd_getitem. keeps_walk. Qed.

Lemma keeps_np_argmin h0 x : keeps h0 (np_argmin x) anything.
Proof. unfold np_argmin. keeps_walk. Qed.

Lemma keeps_model_predict h0 m x : keeps h0 (model_predict m x) anything.
Proof. unfold model_predict. keeps_walk. Qed.

#[local] Hint Resolve keeps_py_len keeps_dict_getitem keeps_list_slice
  keeps_list_getitem keeps_list_setitem keeps_np_array1 keeps_np_add
  keeps_np_clip keeps_nd_getitem keeps_np_argmin keeps_model_predict : keeps.

Lemma keeps_for_range h0 (body : nat -> M unit) count start :
  (forall i, keeps h0 (body i) anything) ->
  keeps h0 (for_range start count body) anything.
Proof.
  intros Hbody. revert start.
  induction count as [| c IH]; intros start; simpl.
  - apply keeps_ret. exact I.
  - eapply keeps_bind; [apply Hbody | intros _ _; apply IH].
Qed.

Lemma keeps_get_pure_examples h0 ex n c :
  keeps h0 (get_pure_examples ex n c) (newer h0).
Proof.
  unfold get_pure_examples.
  eapply keeps_bind; [apply keeps_py_len | intros n_keys _].
  eapply keeps_bind; [apply keeps_random_randint | intros low_limit _].
  eapply keeps_bind; [apply keeps_dict_getitem | intros class_list _].
  eapply keeps_bind; [apply keeps_list_slice | intros pure_examples Hnew].
  eapply keeps_bind; [apply keeps_py_len | intros len _].
  eapply keeps_bind; [| intros _ _; apply keeps_ret, Hnew].
  apply keeps_for_range. intros i. keeps_walk.
Qed.

Section AttackFrames.

Variable cce : ndarray -> ndarray -> Q.

Lemma keeps_compute_gradient_sign h0 m x y d :
  keeps h0 (compute_gradient_sign cce m x y d) anything.
Proof. unfold compute_gradient_sign, K_variable. keeps_walk. Qed.

#[local] Hint Resolve keeps_compute_gradient_sign : keeps.

Lemma keeps_least_likely_class h0 m ex c :
  keeps h0 (least_likely_class m ex c) anything.
Proof.
  unfold least_likely_class.
  eapply keeps_bind; [apply keeps_get_pure_examples | intros p _].
  keeps_walk.
Qed.

Lemma keeps_fast_gradient_sign h0 m x c eps :
  keeps h0 (fast_gradient_sign cce m x c eps) anything.
Proof. unfold fast_gradient_sign. keeps_walk. Qed.

Lemma keeps_basic_iterative_loop h0 m c n alpha x :
  keeps h0 (basic_iterative_loop cce m c n alpha x) anything.
Proof.
  revert alpha x. induction n as [| n IH]; intros alpha x; simpl.
  - apply keeps_ret. exact I.
  - keeps_walk; apply IH.
Qed.

Lemma keeps_iterative_least_likely_class h0 m ex t alpha eps n :
  keeps h0 (iterative_least_likely_class cce m ex t alpha eps n) anything.
Proof.
  unfold iterative_least_likely_class.
  eapply keeps_bind; [apply keeps_least_likely_class | intros ll _].
  eapply keeps_bind; [apply keeps_get_pure_examples | intros p _].
  eapply keeps_bind; [apply keeps_list_getitem | intros e _].
  intros s a s' Hpre H.
  rewrite iterative_least_likely_class_loop_eq in H.
  exact (keeps_basic_iterative_loop h0 m ll n alpha e s a s' Hpre H).
Qed.

End AttackFrames.

(** * The sampler on a well-formed example set *)

Lemma get_pure_examples_Ok_inv p s ex n c l s' :
  is_example_set p (heap s) ex = true ->
  get_pure_examples ex n c s = Ok l s' ->
  exists d ll xs imgs,
    heap s !! ex = Some (ODict d)
    /\ (0 <= low_limit_max (size d) n)%Z
    /\ d !! str c = Some ll
    /\ heap s !! ll = Some (OList xs)
    /\ Forall2 (fun x a => heap s !! x = Some (ONdarray a))
         (take n (drop (drawn_offset s (low_limit_max (size d) n)) xs)) imgs
    /\ Forall (fun a => p a = true) imgs
    /\ l = length (heap s)
    /\ s' = State (heap s ++ OList (seq (S (length (heap s))) (length imgs))
                     :: List.map batch_obj imgs)
                  (fun i => rng s (S i)).
Proof.
  intros Hwf Hrun.
  destruct (is_example_set_dict _ _ _ Hwf) as [d Hex].
  destruct (Z.lt_ge_cases (low_limit_max (size d) n) 0) as [Hneg | Hhi].
  { rewrite (get_pure_examples_ValueError _ _ _ _ _ Hex Hneg) in Hrun.
    discriminate. }
  destruct (d !! str c) as [ll |] eqn:Hc; cycle 1.
  { rewrite (get_pure_examples_KeyError _ _ _ _ _ Hex Hhi Hc) in Hrun.
    discriminate. }
  destruct (is_example_set_class _ _ _ _ _ _ Hwf Hex Hc) as (xs & Hll & Hxs).
  destruct (holds_ndarray_read p (heap s)
              (take n (drop (drawn_offset s (low_limit_max (size d) n)) xs)))
    as (imgs & Himgs & Hp).
  { apply Forall_take, Forall_drop, Hxs. }
  rewrite (get_pure_examples_Ok _ _ _ _ _ _ _ _ Hex Hhi Hc Hll Himgs) in Hrun.
  injection Hrun as <- <-.
  exists d, ll, xs, imgs. repeat split; auto.
Qed.

(** The first element of a sampled list is a new batch holding the first
    sampled image. *)
Lemma sampled_first_Ok (h : list obj) g img imgs :
  let l := length h in
  let s' := State (h ++ OList (seq (S l) (length (img :: imgs)))
                     :: List.map batch_obj (img :: imgs)) g in
  list_getitem l 0 s' = Ok (S l) s'
  /\ heap s' !! S l = Some (ONdarray (batch_of img)).
Proof.
  simpl. split.
  - eapply list_getitem_Ok; [apply list_lookup_middle; reflexivity |].
    reflexivity.
  - rewrite lookup_app_r by lia.
    replace (S (length h) - length h)%nat with 1%nat by lia. reflexivity.
Qed.

Lemma sampled_first_Ok_inv (h : list obj) g imgs e s'' :
  let l := length h in
  let s' := State (h ++ OList (seq (S l) (length imgs))
                     :: List.map batch_obj imgs) g in
  list_getitem l 0 s' = Ok e s'' ->
  exists img rest, imgs = img :: rest /\ e = S l /\ s'' = s'
    /\ heap s' !! e = Some (ONdarray (batch_of img)).
Proof.
  intros l s' H. destruct imgs as [| img rest].
  - apply list_getitem_Ok_inv in H as (_ & items & Hl & Hi).
    subst s'. simpl in Hl. rewrite list_lookup_middle in Hl by reflexivity.
    injection Hl as <-. discriminate.
  - destruct (sampled_first_Ok h g img rest) as [Hget Hlook].
    fold l in Hget, Hlook. fold s' in Hget, Hlook.
    rewrite Hget in H. injection H as <- <-.
    exists img, rest. auto.
Qed.

Lemma read_batches_sampled (h : list obj) imgs :
  read_batches (h ++ OList (seq (S (length h)) (length imgs))
                  :: List.map batch_obj imgs) (length h)
  = Some (List.map batch_of imgs).
Proof.
  unfold read_batches. rewrite list_lookup_middle by reflexivity.
  apply mapM_Some. apply Forall2_same_length_lookup_2.
  - rewrite length_seq, length_map. reflexivity.
  - intros i x y Hx Hy. apply lookup_seq in Hx as [-> Hi].
    apply list_lookup_fmap_Some in Hy as (a & -> & Ha).
    unfold read_ndarray. rewrite lookup_app_r by lia.
    replace (S (length h) + i - length h)%nat with (S i) by lia.
    simpl. change (List.map batch_obj imgs) with (batch_obj <$> imgs).
    rewrite list_lookup_fmap, Ha. reflexivity.
Qed.

(** * The claims *)

(** C7. The perturbation phase of [iterative_least_likely_class] is
    [basic_iterative] started from the sampled example of the least likely
    class, with the least likely class as the label. *)
Theorem iterative_least_likely_class_is_basic_iterative
    (cce : ndarray -> ndarray -> Q) (m : model) (examples : loc)
    (target_class : nat) (alpha epsilon : Q) (num_iterations : nat)
    (s : state) :
  iterative_least_likely_class cce m examples target_class alpha epsilon
    num_iterations s
  = (ll_class <- least_likely_class m examples target_class ;;
     ll_class_example <- get_pure_examples examples 1 ll_class ;;
     example <- list_getitem ll_class_example 0 ;;
     basic_iterative cce m example ll_class alpha epsilon num_iterations) s.
Proof.
  unfold iterative_least_likely_class, basic_iterative.
  apply bind_ext; intros ll s1.
  apply bind_ext; intros p s2.
  apply bind_ext; intros e s3.
  apply iterative_least_likely_class_loop_eq.
Qed.

(** C8. The results of [basic_iterative] and of
    [iterative_least_likely_class] do not depend on [epsilon]: two runs from
    the same state (so with the same random draws) that differ in [epsilon]
    only end with the same result and the same state. *)
Theorem iterative_attacks_ignore_epsilon
    (cce : ndarray -> ndarray -> Q) (m : model) (example examples : loc)
    (class_ : nat) (alpha epsilon1 epsilon2 : Q) (num_iterations : nat)
    (s : state) :
  basic_iterative cce m example class_ alpha epsilon1 num_iterations s
  = basic_iterative cce m example class_ alpha epsilon2 num_iterations s
  /\ iterative_least_likely_class cce m examples class_ alpha epsilon1
       num_iterations s
     = iterative_least_likely_class cce m examples class_ alpha epsilon2
         num_iterations s.
Proof. split; reflexivity. Qed.

(** C1. When the pixels of the input lie in [0,1], every array returned by
    [fast_gradient_sign], [basic_iterative] and
    [iterative_least_likely_class] has all its pixels in [0,1], whatever
    [epsilon], [alpha] and the number of iterations.  The first two always
    return on an array; the third returns unless sampling fails. *)
Theorem attacks_return_pixels_in_01
    (cce : ndarray -> ndarray -> Q) (m : model) (s : state)
    (example examples : loc) (a : ndarray) (class_ : nat)
    (alpha epsilon : Q) (num_iterations : nat) :
  heap s !! example = Some (ONdarray a) ->
  pixels_in_01 a = true ->
  is_example_set pixels_in_01 (heap s) examples = true ->
  (exists r s' a',
     fast_gradient_sign cce m example class_ epsilon s = Ok r s'
     /\ heap s' !! r = Some (ONdarray a') /\ pixels_in_01 a' = true)
  /\ (exists r s' a',
     basic_iterative cce m example class_ alpha epsilon num_iterations s
     = Ok r s'
     /\ heap s' !! r = Some (ONdarray a') /\ pixels_in_01 a' = true)
  /\ (forall r s',
     iterative_least_likely_class cce m examples class_ alpha epsilon
       num_iterations s = Ok r s' ->
     exists a', heap s' !! r = Some (ONdarray a') /\ pixels_in_01 a' = true).
Proof.
  intros Hx Ha Hwf. repeat split.
  - destruct (fast_gradient_sign_Ok cce m example class_ epsilon a s Hx)
      as (r & s' & Hrun & Hr & _).
    exists r, s', (fgs_value cce m class_ epsilon a).
    repeat split; auto. apply clip_pixels_in_01.
  - destruct (basic_iterative_loop_Ok cce m class_ num_iterations alpha
                example a s Hx) as (r & s' & Hrun & Hr & _).
    exists r, s', (iterate_value cce m class_ num_iterations alpha a).
    repeat split; auto. apply iterate_value_in_01. auto.
  - intros r s' Hrun. unfold iterative_least_likely_class in Hrun.
    apply bind_Ok_inv in Hrun as (ll & s1 & Hll & Hrun).
    apply bind_Ok_inv in Hrun as (p & s2 & Hp & Hrun).
    apply bind_Ok_inv in Hrun as (e & s3 & He & Hrun).
    destruct (keeps_least_likely_class (heap s) m examples class_ s ll s1
                (reflexivity _) Hll) as [Hpre _].
    pose proof (is_example_set_prefix _ _ _ _ Hpre Hwf) as Hwf1.
    destruct (get_pure_examples_Ok_inv _ _ _ _ _ _ _ Hwf1 Hp)
      as (d & l & xs & imgs & _ & _ & _ & _ & _ & Himgs & -> & ->).
    apply sampled_first_Ok_inv in He
      as (img & rest & -> & -> & -> & Himg).
    rewrite iterative_least_likely_class_loop_eq in Hrun.
    edestruct (basic_iterative_loop_Ok cce m ll num_iterations alpha)
      as (r' & s'' & Hrun' & Hr & _); [exact Himg |].
    rewrite Hrun' in Hrun. injection Hrun as <- <-.
    eexists. split; [exact Hr |].
    apply iterate_value_in_01. left.
    rewrite batch_of_pixels_in_01. apply Forall_cons in Himgs. tauto.
Qed.

(** A run of the least-likely-class attack on the toy example set. *)
Lemma attacks_return_pixels_in_01_witness :
  exists r s' a',
    iterative_least_likely_class flat_loss fixed_model toy_examples 0
      (1 # 10) (1 # 2) 2 (toy_state (fun _ => 1%nat)) = Ok r s'
    /\ heap s' !! r = Some (ONdarray a') /\ pixels_in_01 a' = true.
Proof.
  destruct (attacks_return_pixels_in_01 flat_loss fixed_model
              (toy_state (fun _ => 1%nat)) 4 toy_examples
              (toy_image (0 / 255)) 0 (1 # 10) (1 # 2) 2)
    as (_ & _ & H).
  - vm_compute. reflexivity.
  - vm_compute. reflexivity.
  - vm_compute. reflexivity.
  - destruct (iterative_least_likely_class flat_loss fixed_model toy_examples
                0 (1 # 10) (1 # 2) 2 (toy_state (fun _ => 1%nat)))
      as [r s' |] eqn:Hrun; [| vm_compute in Hrun; discriminate].
    destruct (H r s' eq_refl) as (a' & Hr & Ha).
    exists r, s', a'. auto.
Defined.

(** C10. The example set is read-only: a call of [get_pure_examples], of
    [fast_gradient_sign], of [basic_iterative] or of
    [iterative_least_likely_class] leaves every object that existed before
    the call (the dictionary, the list of every class, every stored array)
    exactly as it was.  The sampler writes only into the list object it has
    just created by slicing. *)
Theorem calls_leave_existing_objects
    (cce : ndarray -> ndarray -> Q) (m : model) (s s' : state) (r : loc)
    (examples example : loc) (num_examples class_ : nat)
    (alpha epsilon : Q) (num_iterations : nat) (l : loc) (o : obj) :
  heap s !! l = Some o ->
  get_pure_examples examples num_examples class_ s = Ok r s'
  \/ fast_gradient_sign cce m example class_ epsilon s = Ok r s'
  \/ basic_iterative cce m example class_ alpha epsilon num_iterations s
     = Ok r s'
  \/ iterative_least_likely_class cce m examples class_ alpha epsilon
       num_iterations s = Ok r s' ->
  heap s' !! l = Some o.
Proof.
  intros Hl Hrun.
  assert (Hpre : heap s `prefix_of` heap s').
  { destruct Hrun as [H | [H | [H | H]]].
    - exact (proj1 (keeps_get_pure_examples (heap s) _ _ _ s r s'
                      (reflexivity _) H)).
    - exact (proj1 (keeps_fast_gradient_sign cce (heap s) _ _ _ _ s r s'
                      (reflexivity _) H)).
    - exact (proj1 (keeps_basic_iterative_loop cce (heap s) _ _ _ _ _ s r s'
                      (reflexivity _) H)).
    - exact (proj1 (keeps_iterative_least_likely_class cce (heap s) _ _ _ _ _
                      _ s r s' (reflexivity _) H)). }
  exact (prefix_lookup_Some _ _ _ _ Hl Hpre).
Qed.

(** After sampling two images of class 0, the list of class 0 still holds
    its three references. *)
Lemma calls_leave_existing_objects_witness :
  exists r s',
    get_pure_examples toy_examples 2 0 (toy_state (fun _ => 1%nat)) = Ok r s'
    /\ heap s' !! 1%nat = Some (OList [4; 7; 10]%nat).
Proof.
  destruct (get_pure_examples toy_examples 2 0 (toy_state (fun _ => 1%nat)))
    as [r s' |] eqn:Hrun; [| vm_compute in Hrun; discriminate].
  exists r, s'. split; [reflexivity |].
  apply (calls_leave_existing_objects flat_loss fixed_model
           (toy_state (fun _ => 1%nat)) s' r toy_examples 4 2 0
           (1 # 10) (1 # 2) 2 1 (OList [4; 7; 10]%nat)).
  - vm_compute. reflexivity.
  - left. exact Hrun.
Defined.

(** C6. [least_likely_class] returns the argmin (the first index holding
    the minimum) of the prediction vector of the model on one sampled
    example of the given class: the image stored at the drawn offset of the
    list of that class, as a single-example batch. *)
Theorem least_likely_class_is_argmin
    (m : model) (s : state) (examples : loc) (d : gmap string loc)
    (class_ : nat) (class_list : loc) (xs : list loc) (x : loc)
    (image row : ndarray) (rows : list ndarray) (q : Q) (qs : list Q) :
  heap s !! examples = Some (ODict d) ->
  (0 <= low_limit_max (size d) 1)%Z ->
  d !! str class_ = Some class_list ->
  heap s !! class_list = Some (OList xs) ->
  xs !! drawn_offset s (low_limit_max (size d) 1) = Some x ->
  heap s !! x = Some (ONdarray image) ->
  m (batch_of image) = Arr (row :: rows) ->
  nd_flatten row = q :: qs ->
  exists k s',
    least_likely_class m examples class_ s = Ok k s'
    /\ is_first_argmin (nd_flatten row) k.
Proof.
  intros Hex Hhi Hc Hll Hx Himg Hpred Hrow.
  assert (Hsl : Forall2 (fun x a => heap s !! x = Some (ONdarray a))
                  (take 1 (drop (drawn_offset s (low_limit_max (size d) 1)) xs))
                  [image]).
  { rewrite (drop_S _ _ _ Hx). simpl. rewrite take_0.
    constructor; [exact Himg | constructor]. }
  pose proof (get_pure_examples_Ok _ _ _ _ _ _ _ _ Hex Hhi Hc Hll Hsl)
    as Hsample.
  destruct (sampled_first_Ok (heap s) (fun i => rng s (S i)) image [])
    as [Hget Hfirst].
  destruct (argmin_spec q qs) as (k & Hk & Hmin).
  exists k. eexists. split; [| rewrite Hrow; exact Hmin].
  unfold least_likely_class.
  run_with Hsample. run_with Hget.
  erewrite bind_Ok by (apply model_predict_Ok; exact Hfirst).
  unfold nd_getitem.
  erewrite bind_Ok; cycle 1.
  { erewrite bind_Ok by (apply as_ndarray_Ok, lookup_new).
    rewrite Hpred. simpl. apply new_Ok. }
  unfold np_argmin.
  erewrite bind_Ok by (apply as_ndarray_Ok, lookup_new).
  rewrite Hrow, Hk. reflexivity.
Qed.

(** With the fixed prediction (1/2, 1/10, 2/5) the least likely class is
    the one a first argmin names. *)
Lemma least_likely_class_is_argmin_witness :
  exists k s',
    least_likely_class fixed_model toy_examples 0
      (toy_state (fun _ => 1%nat)) = Ok k s'
    /\ is_first_argmin [1 # 2; 1 # 10; 4 # 10] k.
Proof.
  refine (least_likely_class_is_argmin fixed_model
            (toy_state (fun _ => 1%nat)) toy_examples
            (match heap (toy_state (fun _ => 1%nat)) !! 0%nat with
             | Some (ODict d) => d
             | _ => ∅
             end)
            0 1 [4; 7; 10]%nat 7 (toy_image (153 / 255))
            (Arr [Scalar (1 # 2); Scalar (1 # 10); Scalar (4 # 10)]) []
            (1 # 2) [1 # 10; 4 # 10] _ _ _ _ _ _ _ _).
  - vm_compute. reflexivity.
  - vm_compute. discriminate.
  - vm_compute. reflexivity.
  - vm_compute. reflexivity.
  - vm_compute. reflexivity.
  - vm_compute. reflexivity.
  - reflexivity.
  - reflexivity.
Defined.

(** C3, as stated, fails: with three classes of three images each and one
    image asked for, the draw 1 is accepted and the sampler returns the
    image at offset 1 of class 0, while the interval of the claim,
    [0, 3 - 1 - 1), holds 0 only. *)
Lemma sampler_offset_outside_claimed_range :
  let s := toy_state (fun _ => 1%nat) in
  class_length (heap s) toy_examples 0 = Some 3%nat
  /\ random_randint 0 (low_limit_max 3 1) s = Ok 1%Z (advance s)
  /\ (exists l s',
        get_pure_examples toy_examples 1 0 s = Ok l s'
        /\ read_batches (heap s') l
           = Some [batch_of (toy_image (153 / 255))])
  /\ ~ claimed_offset_range 3 1 1.
Proof.
  split; [vm_compute; reflexivity |].
  split; [vm_compute; reflexivity |].
  split.
  - destruct (get_pure_examples toy_examples 1 0 (toy_state (fun _ => 1%nat)))
      as [l s' |] eqn:Hrun; [| vm_compute in Hrun; discriminate].
    exists l, s'. split; [reflexivity |].
    vm_compute in Hrun. injection Hrun as <- <-. vm_compute. reflexivity.
  - unfold claimed_offset_range. lia.
Qed.

Lemma count_eq_in_seq (k start w : nat) :
  length (List.filter (fun i => (i =? k)%nat) (seq start w))
  = if decide (start <= k < start + w)%nat then 1%nat else 0%nat.
Proof.
  revert start. induction w as [| w IH]; intros start; simpl.
  - case_decide; [lia | reflexivity].
  - destruct (Nat.eqb_spec start k) as [-> | Hne]; simpl; rewrite IH.
    + rewrite decide_False, decide_True by lia. reflexivity.
    + destruct (decide (S start <= k < S start + w)%nat);
        [rewrite decide_True by lia | rewrite decide_False by lia];
        reflexivity.
Qed.

Lemma map_add_seq (c start w : nat) :
  List.map (fun i => (i + c)%nat) (seq start w) = seq (start + c) w.
Proof.
  revert start. induction w as [| w IH]; intros start; simpl; [reflexivity |].
  f_equal. apply (IH (S start)).
Qed.

Lemma count_mod_block (w k j : nat) :
  (k < w)%nat ->
  length (List.filter (fun r => (r mod w =? k)%nat) (seq (j * w) w)) = 1%nat.
Proof.
  intros Hk.
  replace (seq (j * w) w) with (List.map (fun i => (i + j * w)%nat) (seq 0 w)).
  - rewrite List.filter_map_swap, length_map.
    rewrite (List.filter_ext_in _ (fun i => (i =? k)%nat)).
    + rewrite count_eq_in_seq, decide_True by lia. reflexivity.
    + intros i Hi. apply in_seq in Hi.
      rewrite Nat.Div0.mod_add, Nat.mod_small by lia. reflexivity.
  - apply (map_add_seq (j * w) 0 w).
Qed.

Lemma count_mod (w k j : nat) :
  (k < w)%nat ->
  length (List.filter (fun r => (r mod w =? k)%nat) (seq 0 (j * w))) = j.
Proof.
  intros Hk. induction j as [| j IH]; [reflexivity |].
  replace (S j * w)%nat with (j * w + w)%nat by lia.
  rewrite seq_app, List.filter_app, length_app, IH. simpl.
  rewrite (count_mod_block w k j Hk). lia.
Qed.

(** Among the raw draws below a multiple of [hi + 1], every offset of
    [0, hi] is the result of equally many. *)
Lemma draws_giving_uniform (h : list obj) (hi : Z) (k j : nat) :
  (0 <= hi)%Z -> (Z.of_nat k <= hi)%Z ->
  draws_giving h hi k (seq 0 (j * Z.to_nat (hi + 1))) = j.
Proof.
  intros Hhi Hk. unfold draws_giving.
  rewrite (List.filter_ext _
             (fun r => (r mod Z.to_nat (hi + 1) =? k)%nat)).
  - apply count_mod. lia.
  - intros raw. rewrite (random_randint_Ok _ _ Hhi).
    unfold drawn_offset. simpl.
    destruct (Nat.eqb_spec (raw mod Z.to_nat (hi + 1)) k) as [-> | Hne].
    + apply Z.eqb_refl.
    + apply Z.eqb_neq. lia.
Qed.

(** C3, amended.  The sampler selects its offset with [random.randint]
    uniformly from a closed interval [0, hi]: the offset is the raw draw
    reduced below [hi + 1], it lies in [0, hi], and every value of
    [0, hi], [hi] included, is the result of equally many raw draws.  When
    the list of the class holds [n] elements from that offset on, the
    sampler returns that contiguous slice of length [n], each element
    wrapped as a single-example batch. *)
Theorem sampler_draws_uniformly_and_slices
    (s : state) (examples : loc) (d : gmap string loc) (n class_ : nat)
    (class_list : loc) (xs : list loc) (imgs : list ndarray) :
  let hi := low_limit_max (size d) n in
  let o := drawn_offset s hi in
  heap s !! examples = Some (ODict d) ->
  (0 <= hi)%Z ->
  d !! str class_ = Some class_list ->
  heap s !! class_list = Some (OList xs) ->
  (o + n <= length xs)%nat ->
  Forall2 (fun x a => heap s !! x = Some (ONdarray a))
    (take n (drop o xs)) imgs ->
  random_randint 0 hi s = Ok (Z.of_nat o) (advance s)
  /\ (0 <= Z.of_nat o <= hi)%Z
  /\ (forall k j, (Z.of_nat k <= hi)%Z ->
        draws_giving (heap s) hi k (seq 0 (j * Z.to_nat (hi + 1))) = j)
  /\ length imgs = n
  /\ exists l s',
       get_pure_examples examples n class_ s = Ok l s'
       /\ read_batches (heap s') l = Some (List.map batch_of imgs).
Proof.
  intros hi o Hex Hhi Hc Hll Hfits Himgs.
  split; [apply random_randint_Ok, Hhi |].
  split; [split; [lia | apply drawn_offset_range, Hhi] |].
  split; [intros k j Hk; apply draws_giving_uniform; assumption |].
  split.
  - rewrite <- (Forall2_length _ _ _ Himgs), length_take, length_drop. lia.
  - do 2 eexists. split.
    + exact (get_pure_examples_Ok _ _ _ _ _ _ _ _ Hex Hhi Hc Hll Himgs).
    + apply read_batches_sampled.
Qed.

(** The upper end of the interval is drawn: offset 1 of [0, 1], and the
    slice of one image taken there. *)
Lemma sampler_draws_uniformly_and_slices_witness :
  let s := toy_state (fun _ => 1%nat) in
  random_randint 0 1 s = Ok 1%Z (advance s)
  /\ draws_giving (heap s) 1 1 (seq 0 (5 * 2)) = 5%nat
  /\ exists l s',
       get_pure_examples toy_examples 1 0 s = Ok l s'
       /\ read_batches (heap s') l = Some [batch_of (toy_image (153 / 255))].
Proof.
  intros s.
  refine ((fun H =>
             conj (proj1 H)
               (conj (proj1 (proj2 (proj2 H)) 1%nat 5%nat _)
                  (proj2 (proj2 (proj2 (proj2 H))))))
            (sampler_draws_uniformly_and_slices s toy_examples
               (match heap s !! 0%nat with
                | Some (ODict d) => d
                | _ => ∅
                end)
               1 0 1 [4; 7; 10]%nat [toy_image (153 / 255)] _ _ _ _ _ _)).
  - vm_compute. discriminate.
  - vm_compute. reflexivity.
  - vm_compute. discriminate.
  - vm_compute. reflexivity.
  - vm_compute. reflexivity.
  - vm_compute. lia.
  - vm_compute. repeat constructor.
Defined.

(** C4, the code at the failing inputs.  The interval of the draw is
    computed from the number of classes, not from the list of the class,
    so whether the sampler fails does not follow the number of examples of
    the class.  With one class of three images and one image asked for,
    the class holds [n + 1] examples and more, and the sampler fails (a
    ValueError of [random.randint]).  With four classes, class 1 holds one
    image, fewer than [n + 1] for [n = 1], and the sampler returns. *)
Theorem sampler_failure_follows_class_count :
  (let s := lone_state (fun _ => 0%nat) in
   class_length (heap s) toy_examples 0 = Some 3%nat
   /\ get_pure_examples toy_examples 1 0 s = Raise ValueError)
  /\ (let s := small_state (fun _ => 0%nat) in
      class_length (heap s) toy_examples 1 = Some 1%nat
      /\ exists l s', get_pure_examples toy_examples 1 1 s = Ok l s').
Proof.
  split; [split; vm_compute; reflexivity |].
  split; [vm_compute; reflexivity |].
  destruct (get_pure_examples toy_examples 1 1 (small_state (fun _ => 0%nat)))
    as [l s' |] eqn:Hrun; [eauto | vm_compute in Hrun; discriminate].
Qed.

(** The estimator of the attacks is the estimator on batches of any size,
    taken with exact addition and one loss for the batch. *)
Lemma compute_gradient_sign_single_example_case
    (cce : ndarray -> ndarray -> Q) (m : model) (x : loc) (y_true : ndarray)
    (delta : Q) (s : state) :
  PerExample.compute_gradient_sign add_scalar (fun y p => [cce y p]) m x
    y_true delta s
  = compute_gradient_sign cce m x y_true delta s.
Proof.
  unfold PerExample.compute_gradient_sign, compute_gradient_sign.
  apply bind_ext; intros x_delta s1.
  apply bind_ext; intros y_pred s2.
  apply bind_ext; intros y_pred_delta s3.
  apply bind_ext; intros p s4.
  apply bind_ext; intros p_delta s5.
  reflexivity.
Qed.

Section PerExampleEstimator.

Variable add : ndarray -> Q -> ndarray.
Variable cce : ndarray -> ndarray -> list Q.

Lemma per_example_losses_Ok (m : model) x y d a s :
  heap s !! x = Some (ONdarray a) ->
  PerExample.compute_gradient_sign add cce m x y d s
  = (greater <- PerExample.array_gt (cce y (m (add a d))) (cce y (m a)) ;;
     positive <- PerExample.truth_value greater ;;
     if positive then ret 1%Z else ret (-1)%Z)
      (grown s [ONdarray (add a d); ONdarray (m a); ONdarray (m (add a d))]).
Proof.
  intros H. unfold PerExample.compute_gradient_sign, PerExample.np_add.
  erewrite bind_Ok; cycle 1.
  { erewrite bind_Ok by (apply as_ndarray_Ok; exact H). apply new_Ok. }
  erewrite bind_Ok by (apply model_predict_Ok; heap_lookup).
  erewrite bind_Ok by (apply model_predict_Ok; heap_lookup).
  unfold K_variable.
  erewrite bind_Ok by (apply as_ndarray_Ok; heap_lookup).
  erewrite bind_Ok by (apply as_ndarray_Ok; heap_lookup).
  rewrite !grown_grown. reflexivity.
Qed.

Lemma per_example_sign_values (m : model) x y d z s s' :
  PerExample.compute_gradient_sign add cce m x y d s = Ok z s' ->
  z = 1%Z \/ z = (-1)%Z.
Proof.
  intros H. unfold PerExample.compute_gradient_sign in H.
  apply bind_Ok_inv in H as (x_delta & s1 & _ & H).
  apply bind_Ok_inv in H as (y_pred & s2 & _ & H).
  apply bind_Ok_inv in H as (y_pred_delta & s3 & _ & H).
  apply bind_Ok_inv in H as (p & s4 & _ & H).
  apply bind_Ok_inv in H as (p_delta & s5 & _ & H).
  apply bind_Ok_inv in H as (greater & s6 & _ & H).
  apply bind_Ok_inv in H as ([|] & s7 & _ & H); injection H as <- _; auto.
Qed.

End PerExampleEstimator.

(** C5, as stated, fails: on a batch of two examples the comparison of
    the losses is an array of two booleans, and [if] raises a ValueError
    where the claim, the two losses being equal, says [-1]. *)
Lemma gradient_sign_on_two_examples_raises :
  let s := State [ONdarray two_examples] (fun _ => 0%nat) in
  zero_losses (int_label 0) (row_model two_examples) = [0%Q; 0%Q]
  /\ zero_losses (int_label 0)
       (row_model (add_scalar two_examples default_delta)) = [0%Q; 0%Q]
  /\ PerExample.compute_gradient_sign add_scalar zero_losses row_model 0
       (int_label 0) default_delta s = Raise ValueError.
Proof. repeat split; vm_compute; reflexivity. Qed.

(** C5, amended.  On a single-example batch, where the loss of the batch
    and the loss of the batch [np.add(x, delta)] are one number each,
    [compute_gradient_sign] returns [+1] when the loss on the shifted batch
    is strictly greater and [-1] otherwise, equal losses included,
    whatever the model, the label and the rounding of the addition.
    Whenever it returns, it returns [+1] or [-1].  On a batch of two
    examples or more it raises a ValueError. *)
Theorem gradient_sign_on_single_example
    (add : ndarray -> Q -> ndarray) (cce : ndarray -> ndarray -> list Q)
    (m : model) (x : loc) (y_true : ndarray) (delta : Q) (a : ndarray)
    (s : state) :
  heap s !! x = Some (ONdarray a) ->
  (forall loss loss_delta,
     cce y_true (m a) = [loss] ->
     cce y_true (m (add a delta)) = [loss_delta] ->
     ((loss < loss_delta)%Q ->
        exists s', PerExample.compute_gradient_sign add cce m x y_true delta s
                   = Ok 1%Z s')
     /\ ((loss_delta <= loss)%Q ->
        exists s', PerExample.compute_gradient_sign add cce m x y_true delta s
                   = Ok (-1)%Z s'))
  /\ (forall z s',
        PerExample.compute_gradient_sign add cce m x y_true delta s = Ok z s' ->
        z = 1%Z \/ z = (-1)%Z)
  /\ ((2 <= length (cce y_true (m a)))%nat ->
      length (cce y_true (m (add a delta))) = length (cce y_true (m a)) ->
      PerExample.compute_gradient_sign add cce m x y_true delta s
      = Raise ValueError).
Proof.
  intros H.
  pose proof (per_example_losses_Ok add cce m x y_true delta a s H) as Hrun.
  split; [| split].
  - intros loss loss_delta Hl Hld. rewrite Hl, Hld in Hrun.
    unfold bind, PerExample.array_gt, PerExample.truth_value in Hrun.
    simpl in Hrun. unfold py_gt in Hrun. split.
    + intros Hlt. destruct (Qle_bool loss_delta loss) eqn:Hle.
      * apply Qle_bool_iff in Hle. exfalso. exact (Qlt_not_le _ _ Hlt Hle).
      * simpl in Hrun. eauto.
    + intros Hle. apply Qle_bool_iff in Hle. rewrite Hle in Hrun.
      simpl in Hrun. eauto.
  - intros z s'. apply per_example_sign_values.
  - intros Hmany Hsame. rewrite Hrun.
    unfold bind at 1. unfold PerExample.array_gt.
    rewrite (proj2 (Nat.eqb_eq _ _) Hsame). unfold ret at 1.
    destruct (cce y_true (m a)) as [| l1 [| l2 ls]]; simpl in Hmany; try lia.
    destruct (cce y_true (m (add a delta))) as [| d1 [| d2 ds]];
      try discriminate.
    reflexivity.
Qed.

(** On the first toy image, a single-example loss that does not react to
    the probe: the sign is [-1]. *)
Lemma gradient_sign_on_single_example_witness :
  exists s',
    PerExample.compute_gradient_sign add_scalar (fun _ _ => [0%Q]) fixed_model
      4 (int_label 0) default_delta (toy_state (fun _ => 0%nat))
    = Ok (-1)%Z s'.
Proof.
  refine (proj2 (proj1 (gradient_sign_on_single_example add_scalar
                          (fun _ _ => [0%Q]) fixed_model 4 (int_label 0)
                          default_delta (toy_image (0 / 255))
                          (toy_state (fun _ => 0%nat)) _)
                   0%Q 0%Q eq_refl eq_refl) _).
  - vm_compute. reflexivity.
  - vm_compute. discriminate.
Defined.

(** C9, the code at the failing input.  With four classes and two images
    in class 0, one image of class 0 is asked for: the class has [n + 1]
    examples.  The interval of the draw is computed from the number of
    classes, so the offset 2 can be drawn, and the slice taken there is
    empty: the list returned is shorter than the count asked for. *)
Theorem sampler_returns_short_slice :
  let s := small_state (fun _ => 2%nat) in
  class_length (heap s) toy_examples 0 = Some 2%nat
  /\ random_randint 0 (low_limit_max 4 1) s = Ok 2%Z (advance s)
  /\ exists l s',
       get_pure_examples toy_examples 1 0 s = Ok l s'
       /\ read_batches (heap s') l = Some [].
Proof.
  split; [vm_compute; reflexivity |].
  split; [vm_compute; reflexivity |].
  destruct (get_pure_examples toy_examples 1 0 (small_state (fun _ => 2%nat)))
    as [l s' |] eqn:Hrun; [| vm_compute in Hrun; discriminate].
  exists l, s'. split; [reflexivity |].
  vm_compute in Hrun. injection Hrun as <- <-. vm_compute. reflexivity.
Qed.

(** C2, the code at the failing input.  The loss does not react to the
    probe, so the sign estimated in each iteration is [-1].  Starting from
    a pixel at 1/5 with [alpha = 1/10], two iterations of [basic_iterative]
    end at 1/5 again: the second iteration adds [+1/10], the product of
    [alpha] and both signs, where [alpha] times the sign of that iteration
    is [-1/10] and leads to 0. *)
Theorem basic_iterative_multiplies_earlier_signs :
  let s := toy_state (fun _ => 0%nat) in
  let start := toy_image (51 / 255) in
  heap s !! 5%nat = Some (ONdarray start)
  /\ (forall a, sign_at flat_loss fixed_model a (int_label 1) default_delta
                = (-1)%Z)
  /\ (exists r s' q,
        basic_iterative flat_loss fixed_model 5 1 (1 # 10) (1 # 2) 2 s
        = Ok r s'
        /\ heap s' !! r = Some (ONdarray (toy_image q))
        /\ (q == 1 # 5)%Q)
  /\ (exists q,
        fresh_sign_value flat_loss fixed_model 1 2 (1 # 10) start
        = toy_image q
        /\ (q == 0)%Q).
Proof.
  split; [vm_compute; reflexivity |].
  split; [intros a; reflexivity |].
  split.
  - destruct (basic_iterative flat_loss fixed_model 5 1 (1 # 10) (1 # 2) 2
                (toy_state (fun _ => 0%nat)))
      as [r s' |] eqn:Hrun; [| vm_compute in Hrun; discriminate].
    vm_compute in Hrun. injection Hrun as <- <-.
    do 3 eexists. split; [reflexivity |].
    split; [vm_compute; reflexivity |]. reflexivity.
  - eexists. split; [vm_compute; reflexivity |]. reflexivity.
Qed.

(** * Further properties of the attacks *)




Lemma nd_all_map_in (r p : Q -> bool) (f : Q -> Q) a :
  (forall q, r q = true -> p (f q) = true) ->
  nd_all r a = true -> nd_all p (nd_map f a) = true.
Proof.
  intros Hf. induction a as [q | items IH] using ndarray_ind; simpl.
  - apply Hf.
  - induction IH as [| x l Hx _ IHl]; simpl; [reflexivity |].
    intros H. apply andb_prop in H as [H1 H2].
    rewrite (Hx H1), (IHl H2). reflexivity.
Qed.

Lemma in_unit_interval_iff q :
  in_unit_interval q = true <-> (0 <= q <= 1)%Q.
Proof.
  unfold in_unit_interval. rewrite andb_true_iff, !Qle_bool_iff. tauto.
Qed.





Section AttackBounds.

Variable cce : ndarray -> ndarray -> Q.


End AttackBounds.





(** * The dataset partitioner *)

Lemma str_inj (a b : nat) : str a = str b -> a = b.
Proof. unfold str. apply pretty_nat_inj. Qed.

Lemma class_dict_lookup_Some p k key l :
  class_dict p k !! key = Some l ->
  exists c, (c < k)%nat /\ key = str c /\ l = (p + 1 + c)%nat.
Proof.
  induction k as [| k IH]; simpl.
  - rewrite lookup_empty. discriminate.
  - rewrite lookup_insert. case_decide as Hk.
    + intros [= <-]. exists k. auto with lia.
    + intros H. destruct (IH H) as (c & Hc & -> & ->). exists c. auto with lia.
Qed.

Lemma class_dict_lookup p k c :
  (c < k)%nat -> class_dict p k !! str c = Some (p + 1 + c)%nat.
Proof.
  induction k as [| k IH]; intros Hc; [lia |]. simpl.
  rewrite lookup_insert. case_decide as Hk.
  - apply str_inj in Hk. subst. reflexivity.
  - apply IH. destruct (decide (c = k)) as [-> |]; [congruence | lia].
Qed.

Lemma class_dict_lookup_None p k c :
  (k <= c)%nat -> class_dict p k !! str c = None.
Proof.
  intros Hc. destruct (class_dict p k !! str c) as [l |] eqn:H; [| reflexivity].
  apply class_dict_lookup_Some in H as (c' & Hc' & Heq & _).
  apply str_inj in Heq. lia.
Qed.

Lemma class_dict_size p k : size (class_dict p k) = k.
Proof.
  induction k as [| k IH]; simpl; [apply map_size_empty |].
  rewrite map_size_insert_None, IH; [reflexivity |].
  apply class_dict_lookup_None. lia.
Qed.

Lemma positions_S y j i :
  positions y j (S i)
  = positions y j i ++ (if bool_decide (y !! i = Some j) then [i] else []).
Proof. unfold positions. rewrite seq_S, List.filter_app. reflexivity. Qed.

Lemma length_loaded_heap h k y images i :
  (i <= length images)%nat ->
  length (loaded_heap h k y images i) = (length h + 1 + k + i)%nat.
Proof.
  intros Hi. unfold loaded_heap.
  rewrite length_app. simpl.
  rewrite length_app, !length_map, length_seq, length_take. lia.
Qed.

Lemma loaded_heap_dict h k y images i :
  loaded_heap h k y images i !! length h = Some (ODict (class_dict (length h) k)).
Proof. unfold loaded_heap. apply list_lookup_middle. reflexivity. Qed.

Lemma loaded_heap_old h k y images i l o :
  h !! l = Some o -> loaded_heap h k y images i !! l = Some o.
Proof. intros H. unfold loaded_heap. apply lookup_app_l_Some, H. Qed.

Lemma loaded_heap_list h k y images i c :
  (c < k)%nat ->
  loaded_heap h k y images i !! (length h + 1 + c)%nat
  = Some (OList (List.map (fun t => (length h + 1 + k + t)%nat)
                   (positions y c i))).
Proof.
  intros Hc. unfold loaded_heap.
  rewrite lookup_app_r by lia.
  replace (length h + 1 + c - length h)%nat with (S c) by lia. simpl.
  rewrite lookup_app_l by (rewrite length_map, length_seq; lia).
  change (List.map ?f (seq 0 k)) with (f <$> seq 0 k).
  rewrite list_lookup_fmap, lookup_seq_lt by lia. reflexivity.
Qed.

Lemma loaded_heap_image h k y images i t image :
  (t < i)%nat -> images !! t = Some image ->
  loaded_heap h k y images i !! (length h + 1 + k + t)%nat
  = Some (ONdarray image).
Proof.
  intros Ht Himg. unfold loaded_heap.
  rewrite lookup_app_r by lia.
  replace (length h + 1 + k + t - length h)%nat with (S (k + t)) by lia.
  simpl. rewrite lookup_app_r by (rewrite length_map, length_seq; lia).
  rewrite length_map, length_seq.
  replace (k + t - k)%nat with t by lia.
  change (List.map ONdarray (take i images)) with (ONdarray <$> take i images).
  rewrite list_lookup_fmap, lookup_take_lt, Himg by lia. reflexivity.
Qed.

(** The first loop allocates one empty list per class and binds it. *)
Lemma class_lists_loop_Ok (h : list obj) (g : nat -> nat) c j :
  for_range j c
    (fun j => l <- new (OList []) ;; dict_setitem (length h) (str j) l)
    (State (h ++ ODict (class_dict (length h) j) :: replicate j (OList [])) g)
  = Ok tt
      (State (h ++ ODict (class_dict (length h) (j + c))
                :: replicate (j + c) (OList [])) g).
Proof.
  revert j. induction c as [| c IH]; intros j; simpl.
  - rewrite Nat.add_0_r. reflexivity.
  - erewrite bind_Ok; cycle 1.
    { run_with (new_Ok (OList [])
                  (State (h ++ ODict (class_dict (length h) j)
                            :: replicate j (OList [])) g)).
      unfold dict_setitem. erewrite bind_Ok; cycle 1.
      { apply as_dict_Ok. simpl. rewrite <- app_assoc.
        apply list_lookup_middle. reflexivity. }
      unfold assign. reflexivity. }
    replace (j + S c)%nat with (S j + c)%nat by lia.
    rewrite <- IH. f_equal. f_equal. simpl.
    rewrite <- app_assoc, insert_app_r_alt, Nat.sub_diag by lia. simpl.
    rewrite length_app. simpl. rewrite length_replicate.
    replace (length h + S j)%nat with (length h + 1 + j)%nat by lia.
    do 2 f_equal. symmetry. apply replicate_cons_app.
Qed.

Lemma loaded_heap_0 h k y images :
  loaded_heap h k y images 0
  = h ++ ODict (class_dict (length h) k) :: replicate k (OList []).
Proof.
  unfold loaded_heap. rewrite take_0. simpl. rewrite app_nil_r.
  do 2 f_equal. generalize 0%nat.
  induction k as [| k IH]; intros start; simpl; [reflexivity |].
  rewrite IH. reflexivity.
Qed.

(** Filing image [i], whose label is a class of the dictionary. *)
Lemma file_image_Ok (h : list obj) (g : nat -> nat) k y images i c image :
  y !! i = Some c -> (c < k)%nat -> images !! i = Some image ->
  file_image (length h) images y i (State (loaded_heap h k y images i) g)
  = Ok tt (State (loaded_heap h k y images (S i)) g).
Proof.
  intros Hy Hc Himg. unfold file_image. rewrite Hy, Himg.
  pose proof (lookup_lt_Some _ _ _ Himg) as Hi.
  unfold dict_getitem. erewrite bind_Ok; cycle 1.
  { erewrite bind_Ok by (apply as_dict_Ok, loaded_heap_dict).
    rewrite (class_dict_lookup _ _ _ Hc). reflexivity. }
  rewrite (bind_Ok _ _ _ _ _ (new_Ok _ _)).
  unfold list_append. erewrite bind_Ok; cycle 1.
  { apply as_list_Ok. apply heap_grown_lookup. simpl.
    apply loaded_heap_list, Hc. }
  unfold assign. f_equal. f_equal. simpl heap.
  rewrite length_loaded_heap by lia.
  unfold loaded_heap.
  rewrite <- app_assoc, insert_app_r_alt by lia.
  replace (length h + 1 + c - length h)%nat with (S c) by lia. simpl.
  do 2 f_equal.
  rewrite <- app_assoc, insert_app_l by (rewrite length_map, length_seq; lia).
  rewrite (take_S_r _ _ _ Himg), map_app. simpl. f_equal.
  apply list_eq. intros j.
  change (List.map ?f (seq 0 k)) with (f <$> seq 0 k).
  destruct (decide (j = c)) as [-> | Hne].
  - rewrite list_lookup_insert_eq by (rewrite length_fmap, length_seq; lia).
    rewrite list_lookup_fmap, lookup_seq_lt by lia. simpl.
    rewrite positions_S, bool_decide_eq_true_2 by exact Hy.
    rewrite map_app. reflexivity.
  - rewrite list_lookup_insert_ne by congruence.
    rewrite !list_lookup_fmap.
    destruct (seq 0 k !! j) as [j' |] eqn:Hj; [| reflexivity]. simpl.
    apply lookup_seq in Hj as [-> _]. simpl.
    rewrite positions_S, bool_decide_eq_false_2 by congruence.
    rewrite app_nil_r. reflexivity.
Qed.

(** Filing an image whose label is not a class of the dictionary. *)
Lemma file_image_KeyError (h : list obj) (g : nat -> nat) k y images i c image :
  y !! i = Some c -> (k <= c)%nat -> images !! i = Some image ->
  file_image (length h) images y i (State (loaded_heap h k y images i) g)
  = Raise KeyError.
Proof.
  intros Hy Hc Himg. unfold file_image. rewrite Hy, Himg.
  apply bind_Raise. unfold dict_getitem.
  erewrite bind_Ok by (apply as_dict_Ok, loaded_heap_dict).
  rewrite (class_dict_lookup_None _ _ _ Hc). reflexivity.
Qed.

Lemma images_loop_Ok (h : list obj) (g : nat -> nat) k y images c i :
  length images = length y ->
  (i + c <= length y)%nat ->
  Forall (fun label => (label < k)%nat) (take c (drop i y)) ->
  for_range i c (file_image (length h) images y)
    (State (loaded_heap h k y images i) g)
  = Ok tt (State (loaded_heap h k y images (i + c)) g).
Proof.
  intros Hlen. revert i. induction c as [| c IH]; intros i Hi Hall; simpl.
  - rewrite Nat.add_0_r. reflexivity.
  - destruct (lookup_lt_is_Some_2 y i) as [label Hy]; [lia |].
    destruct (lookup_lt_is_Some_2 images i) as [image Himg]; [lia |].
    rewrite (drop_S _ _ _ Hy) in Hall. simpl in Hall.
    apply Forall_cons in Hall as [Hlabel Hall].
    rewrite (bind_Ok _ _ _ _ _
               (file_image_Ok h g k y images i label image Hy Hlabel Himg)).
    replace (i + S c)%nat with (S i + c)%nat by lia.
    apply IH; [lia | exact Hall].
Qed.

Lemma images_loop_KeyError (h : list obj) (g : nat -> nat) k y images c i :
  length images = length y ->
  (i + c <= length y)%nat ->
  Exists (fun label => (k <= label)%nat) (take c (drop i y)) ->
  for_range i c (file_image (length h) images y)
    (State (loaded_heap h k y images i) g)
  = Raise KeyError.
Proof.
  intros Hlen. revert i. induction c as [| c IH]; intros i Hi Hex; simpl.
  - rewrite take_0 in Hex. inversion Hex.
  - destruct (lookup_lt_is_Some_2 y i) as [label Hy]; [lia |].
    destruct (lookup_lt_is_Some_2 images i) as [image Himg]; [lia |].
    rewrite (drop_S _ _ _ Hy) in Hex. simpl in Hex.
    destruct (decide (k <= label)%nat) as [Hbad | Hgood].
    + apply bind_Raise.
      exact (file_image_KeyError h g k y images i label image Hy Hbad Himg).
    + rewrite (bind_Ok _ _ _ _ _
                 (file_image_Ok h g k y images i label image Hy
                    ltac:(lia) Himg)).
      apply IH; [lia |].
      apply Exists_cons in Hex as [Hex | Hex]; [lia | exact Hex].
Qed.

Lemma load_data_Ok x_train y_train k s :
  length x_train = length y_train ->
  Forall (fun label => (label < k)%nat) y_train ->
  load_data x_train y_train k s
  = Ok (length (heap s))
       (State (loaded_heap (heap s) k y_train (normalised x_train)
                 (length y_train))
              (rng s)).
Proof.
  intros Hlen Hall. unfold load_data.
  rewrite (proj2 (Nat.eqb_eq _ _) Hlen). cbn [negb].
  rewrite (bind_Ok _ _ _ _ _ (new_Ok _ _)).
  pose proof (class_lists_loop_Ok (heap s) (rng s) k 0) as Hfirst.
  simpl in Hfirst.
  rewrite <- (loaded_heap_0 (heap s) k y_train (normalised x_train)) in Hfirst.
  erewrite bind_Ok by exact Hfirst.
  erewrite bind_Ok; [reflexivity |].
  apply (images_loop_Ok (heap s) (rng s) k y_train (normalised x_train)
           (length y_train) 0).
  - unfold normalised. rewrite length_map. exact Hlen.
  - lia.
  - rewrite drop_0, take_ge by lia. exact Hall.
Qed.

Lemma load_data_KeyError x_train y_train k s :
  length x_train = length y_train ->
  Exists (fun label => (k <= label)%nat) y_train ->
  load_data x_train y_train k s = Raise KeyError.
Proof.
  intros Hlen Hex. unfold load_data.
  rewrite (proj2 (Nat.eqb_eq _ _) Hlen). cbn [negb].
  rewrite (bind_Ok _ _ _ _ _ (new_Ok _ _)).
  pose proof (class_lists_loop_Ok (heap s) (rng s) k 0) as Hfirst.
  simpl in Hfirst.
  rewrite <- (loaded_heap_0 (heap s) k y_train (normalised x_train)) in Hfirst.
  erewrite bind_Ok by exact Hfirst.
  apply bind_Raise.
  apply (images_loop_KeyError (heap s) (rng s) k y_train (normalised x_train)
           (length y_train) 0).
  - unfold normalised. rewrite length_map. exact Hlen.
  - lia.
  - rewrite drop_0, take_ge by lia. exact Hex.
Qed.

Lemma load_data_AssertionError x_train y_train k s :
  length x_train <> length y_train ->
  load_data x_train y_train k s = Raise AssertionError.
Proof.
  intros Hlen. unfold load_data.
  rewrite (proj2 (Nat.eqb_neq _ _) Hlen). reflexivity.
Qed.

(** The three outcomes of [load_data], with the input that gives each. *)
Lemma load_data_cases x_train y_train k s :
  (length x_train <> length y_train
   /\ load_data x_train y_train k s = Raise AssertionError)
  \/ (length x_train = length y_train
      /\ Exists (fun label => (k <= label)%nat) y_train
      /\ load_data x_train y_train k s = Raise KeyError)
  \/ (length x_train = length y_train
      /\ Forall (fun label => (label < k)%nat) y_train
      /\ load_data x_train y_train k s
         = Ok (length (heap s))
              (State (loaded_heap (heap s) k y_train (normalised x_train)
                        (length y_train))
                     (rng s))).
Proof.
  destruct (decide (length x_train = length y_train)) as [Hlen | Hlen];
    [| left; auto using load_data_AssertionError].
  right.
  destruct (decide (Forall (fun label => (label < k)%nat) y_train))
    as [Hall | Hnot].
  - right. auto using load_data_Ok.
  - left. split; [exact Hlen |].
    assert (Hex : Exists (fun label => (k <= label)%nat) y_train).
    { apply not_Forall_Exists in Hnot; [| intros label; apply _].
      eapply Exists_impl; [exact Hnot |]. simpl. intros label Hl. lia. }
    auto using load_data_KeyError.
Qed.

Lemma images_of_class_snoc images labels image label j :
  length images = length labels ->
  images_of_class (images ++ [image]) (labels ++ [label]) j
  = images_of_class images labels j
    ++ (if (label =? j)%nat then [image] else []).
Proof.
  revert labels. induction images as [| x images IH];
    intros [| l labels] Hlen; try discriminate; simpl.
  - reflexivity.
  - rewrite IH by (simpl in Hlen; lia).
    destruct (l =? j)%nat; reflexivity.
Qed.

(** The references filed under class [j] lead to the images labelled [j],
    in the order of the dataset. *)
Lemma loaded_heap_class_images h k y images j n i :
  length images = length y ->
  (i <= n)%nat -> (n <= length y)%nat ->
  Forall2
    (fun t a =>
       loaded_heap h k y images n !! (length h + 1 + k + t)%nat
       = Some (ONdarray a))
    (positions y j i)
    (images_of_class (take i images) (take i y) j).
Proof.
  intros Hlen. induction i as [| i IH]; intros Hi Hn.
  - rewrite !take_0. constructor.
  - destruct (lookup_lt_is_Some_2 y i) as [label Hy]; [lia |].
    destruct (lookup_lt_is_Some_2 images i) as [image Himg]; [lia |].
    rewrite positions_S, (take_S_r _ _ _ Hy), (take_S_r _ _ _ Himg).
    rewrite images_of_class_snoc by (rewrite !length_take; lia).
    apply Forall2_app; [apply IH; lia |].
    rewrite Hy. case_bool_decide as Heq.
    + injection Heq as ->. rewrite Nat.eqb_refl.
      constructor; [| constructor].
      apply loaded_heap_image; [lia | exact Himg].
    + destruct (Nat.eqb_spec label j) as [-> |]; [congruence | constructor].
Qed.

Lemma loaded_heap_is_example_set (P : ndarray -> bool) h k y images :
  length images = length y ->
  Forall (fun a => P a = true) images ->
  is_example_set P (loaded_heap h k y images (length y)) (length h) = true.
Proof.
  intros Hlen HP. unfold is_example_set.
  rewrite loaded_heap_dict. apply forallb_forall. intros [key l] Hin. simpl.
  apply list_elem_of_In, elem_of_map_to_list in Hin.
  apply class_dict_lookup_Some in Hin as (c & Hc & -> & ->).
  unfold holds_images. rewrite (loaded_heap_list _ _ _ _ _ _ Hc).
  apply forallb_forall. intros x Hx.
  apply in_map_iff in Hx as (t & <- & Ht).
  unfold positions in Ht. apply List.filter_In in Ht as [Ht _].
  apply in_seq in Ht.
  destruct (lookup_lt_is_Some_2 images t) as [a Ha]; [lia |].
  assert (Hlt : (t < length y)%nat) by lia.
  unfold holds_ndarray.
  rewrite (loaded_heap_image h k y images (length y) t a Hlt Ha).
  exact (proj1 (Forall_lookup _ _) HP _ _ Ha).
Qed.

Lemma normalised_pixels_in_01 a :
  raw_pixels a = true -> pixels_in_01 (nd_map (fun q => (q / 255)%Q) a) = true.
Proof.
  apply nd_all_map_in. intros q Hq.
  apply andb_prop in Hq as [H0 H1]. apply Qle_bool_iff in H0, H1.
  apply in_unit_interval_iff. unfold Qdiv.
  change (/ 255)%Q with (1 # 255)%Q. split; lra.
Qed.

(** X5. [load_data] partitions the dataset: when there is one label per
    image and every label is below [num_classes], it returns a dictionary
    in which the list of class [j] holds exactly the images labelled [j],
    divided by 255, in the order of the dataset. *)
Theorem load_data_partitions
    (x_train : list ndarray) (y_train : list nat) (num_classes : nat)
    (s : state) :
  length x_train = length y_train ->
  Forall (fun label => (label < num_classes)%nat) y_train ->
  exists ex s',
    load_data x_train y_train num_classes s = Ok ex s'
    /\ forall j, (j < num_classes)%nat ->
         read_class (heap s') ex j
         = Some (images_of_class (normalised x_train) y_train j).
Proof.
  intros Hlen Hall. do 2 eexists.
  split; [exact (load_data_Ok _ _ _ s Hlen Hall) |].
  intros j Hj. simpl heap. unfold read_class.
  rewrite loaded_heap_dict, (class_dict_lookup _ _ _ Hj).
  unfold read_batches. rewrite (loaded_heap_list _ _ _ _ _ _ Hj).
  apply mapM_Some.
  assert (Hlen' : length (normalised x_train) = length y_train).
  { unfold normalised. rewrite length_map. exact Hlen. }
  pose proof (loaded_heap_class_images (heap s) num_classes y_train
                (normalised x_train) j (length y_train) (length y_train)
                Hlen' ltac:(lia) ltac:(lia)) as Hread.
  rewrite !take_ge in Hread by lia.
  change (List.map ?f ?l) with (f <$> l).
  apply Forall2_fmap_l. eapply Forall2_impl; [exact Hread |].
  simpl. intros t a Ht. unfold read_ndarray. rewrite Ht. reflexivity.
Qed.

(** The toy dataset: class 0 holds the images 0, 153 and 25, scaled. *)
Lemma load_data_partitions_witness :
  exists ex s',
    load_data toy_x toy_y 3 (State [] (fun _ => 0%nat)) = Ok ex s'
    /\ read_class (heap s') ex 0
       = Some [toy_image (0 / 255); toy_image (153 / 255);
               toy_image (25 / 255)].
Proof.
  destruct (load_data_partitions toy_x toy_y 3 (State [] (fun _ => 0%nat)))
    as (ex & s' & Hrun & Hclass).
  - reflexivity.
  - repeat constructor.
  - exists ex, s'. split; [exact Hrun |].
    rewrite (Hclass 0%nat ltac:(lia)). reflexivity.
Defined.

(** X6. The dictionary [load_data] returns has exactly [num_classes] keys,
    the decimal strings of 0 .. [num_classes - 1], whatever the labels that
    occur in the dataset: a class without images is bound to an empty
    list. *)
Theorem load_data_keys
    (x_train : list ndarray) (y_train : list nat) (num_classes : nat)
    (s s' : state) (ex : loc) :
  load_data x_train y_train num_classes s = Ok ex s' ->
  exists d,
    heap s' !! ex = Some (ODict d)
    /\ size d = num_classes
    /\ (forall key, is_Some (d !! key)
          <-> exists j, (j < num_classes)%nat /\ key = str j)
    /\ (forall j, (j < num_classes)%nat ->
          (forall label, label ∈ y_train -> label <> j) ->
          read_class (heap s') ex j = Some []).
Proof.
  intros Hrun.
  destruct (load_data_cases x_train y_train num_classes s)
    as [[_ H] | [(_ & _ & H) | (Hlen & Hall & H)]];
    rewrite H in Hrun; try discriminate.
  injection Hrun as <- <-. simpl heap.
  exists (class_dict (length (heap s)) num_classes).
  split; [apply loaded_heap_dict |].
  split; [apply class_dict_size |].
  split.
  - intros key. split.
    + intros [l Hl].
      apply class_dict_lookup_Some in Hl as (c & Hc & -> & _). eauto.
    + intros (j & Hj & ->). rewrite (class_dict_lookup _ _ _ Hj). eauto.
  - intros j Hj Hnone. unfold read_class.
    rewrite loaded_heap_dict, (class_dict_lookup _ _ _ Hj).
    unfold read_batches. rewrite (loaded_heap_list _ _ _ _ _ _ Hj).
    assert (Hpos : positions y_train j (length y_train) = []).
    { generalize (length y_train). intros n.
      induction n as [| n IH]; [reflexivity |].
      rewrite positions_S, IH, bool_decide_eq_false_2; [reflexivity |].
      intros Ht. apply (Hnone j); [| reflexivity].
      eapply list_elem_of_lookup_2, Ht. }
    rewrite Hpos. reflexivity.
Qed.

(** Five classes asked for over the toy dataset, which uses three. *)
Lemma load_data_keys_witness :
  exists s' d,
    load_data toy_x toy_y 5 (State [] (fun _ => 0%nat)) = Ok 0%nat s'
    /\ heap s' !! 0%nat = Some (ODict d)
    /\ size d = 5%nat
    /\ read_class (heap s') 0 4 = Some [].
Proof.
  destruct (load_data toy_x toy_y 5 (State [] (fun _ => 0%nat)))
    as [ex s' |] eqn:Hrun; [| vm_compute in Hrun; discriminate].
  assert (Hex : ex = 0%nat) by (vm_compute in Hrun; congruence).
  subst ex.
  destruct (load_data_keys toy_x toy_y 5 (State [] (fun _ => 0%nat)) s' 0
              Hrun) as (d & Hd & Hsize & _ & Hempty).
  exists s', d. split; [reflexivity |]. split; [exact Hd |].
  split; [exact Hsize |].
  apply Hempty; [lia |].
  intros label Hin ->. vm_compute in Hin.
  repeat (apply elem_of_cons in Hin as [Hin | Hin]; [discriminate |]).
  inversion Hin.
Defined.

Lemma labels_below_or_not k (y : list nat) :
  Forall (fun label => (label < k)%nat) y ->
  Exists (fun label => (k <= label)%nat) y -> False.
Proof.
  intros Hall Hex. apply Exists_exists in Hex as (label & Hin & Hge).
  pose proof (proj1 (Forall_forall _ _) Hall label Hin). simpl in *. lia.
Qed.

(** X7. The outcomes of [load_data]: an AssertionError exactly when the
    numbers of images and of labels differ; otherwise a KeyError exactly
    when some label is [num_classes] or more; otherwise it returns.  It
    raises nothing else. *)
Theorem load_data_outcomes
    (x_train : list ndarray) (y_train : list nat) (num_classes : nat)
    (s : state) :
  (load_data x_train y_train num_classes s = Raise AssertionError
   <-> length x_train <> length y_train)
  /\ (load_data x_train y_train num_classes s = Raise KeyError
      <-> length x_train = length y_train
          /\ Exists (fun label => (num_classes <= label)%nat) y_train)
  /\ ((exists ex s', load_data x_train y_train num_classes s = Ok ex s')
      <-> length x_train = length y_train
          /\ Forall (fun label => (label < num_classes)%nat) y_train)
  /\ (forall e, load_data x_train y_train num_classes s = Raise e ->
        e = AssertionError \/ e = KeyError).
Proof.
  destruct (load_data_cases x_train y_train num_classes s)
    as [[Hlen H] | [(Hlen & Hex & H) | (Hlen & Hall & H)]]; rewrite H.
  - split; [tauto |].
    split; [split; [discriminate | tauto] |].
    split; [split; [intros (? & ? & ?); discriminate | tauto] |].
    intros e [= <-]. auto.
  - split; [split; [discriminate | tauto] |].
    split; [tauto |].
    split; [| intros e [= <-]; auto].
    split; [intros (? & ? & ?); discriminate |].
    intros [_ Hall]. destruct (labels_below_or_not _ _ Hall Hex).
  - split; [split; [discriminate | tauto] |].
    split; [| split; [split; eauto | discriminate]].
    split; [discriminate |].
    intros [_ Hex]. destruct (labels_below_or_not _ _ Hall Hex).
Qed.

(** X8. What [load_data] returns is a well-formed example set whose pixels
    lie in [0,1] when the raw intensities lie in [0,255], that is the
    input the attacks and the sampler expect.  It is a new object: nothing
    that existed before is changed, and no random number is drawn. *)
Theorem load_data_example_set
    (x_train : list ndarray) (y_train : list nat) (num_classes : nat)
    (s s' : state) (ex : loc) :
  load_data x_train y_train num_classes s = Ok ex s' ->
  Forall (fun a => raw_pixels a = true) x_train ->
  is_example_set pixels_in_01 (heap s') ex = true
  /\ heap s !! ex = None
  /\ heap s `prefix_of` heap s'
  /\ rng s' = rng s.
Proof.
  intros Hrun Hraw.
  destruct (load_data_cases x_train y_train num_classes s)
    as [[_ H] | [(_ & _ & H) | (Hlen & Hall & H)]];
    rewrite H in Hrun; try discriminate.
  injection Hrun as <- <-. simpl.
  split; [| split; [| split]].
  - apply loaded_heap_is_example_set.
    + unfold normalised. rewrite length_map. exact Hlen.
    + unfold normalised. apply Forall_forall. intros a Ha.
      apply list_elem_of_In, in_map_iff in Ha as (raw & <- & Hin).
      apply normalised_pixels_in_01.
      apply (proj1 (Forall_forall _ _) Hraw), list_elem_of_In, Hin.
  - apply lookup_ge_None. lia.
  - unfold loaded_heap. apply prefix_app_r. reflexivity.
  - reflexivity.
Qed.

(** The toy dataset, loaded after some other object. *)
Lemma load_data_example_set_witness :
  exists ex s',
    load_data toy_x toy_y 3 (State [OList []] (fun _ => 0%nat)) = Ok ex s'
    /\ is_example_set pixels_in_01 (heap s') ex = true
    /\ heap s' !! 0%nat = Some (OList []).
Proof.
  destruct (load_data toy_x toy_y 3 (State [OList []] (fun _ => 0%nat)))
    as [ex s' |] eqn:Hrun; [| vm_compute in Hrun; discriminate].
  destruct (load_data_example_set toy_x toy_y 3
              (State [OList []] (fun _ => 0%nat)) s' ex Hrun)
    as (Hwf & _ & Hpre & _).
  - vm_compute. repeat constructor.
  - exists ex, s'. split; [reflexivity |]. split; [exact Hwf |].
    exact (prefix_lookup_Some [OList []] (heap s') 0%nat (OList []) eq_refl Hpre).
Defined.

(** * The sampler on a loaded example set *)

Lemma loaded_heap_class_list h k y images c :
  length images = length y -> (c < k)%nat ->
  Forall2
    (fun x a => loaded_heap h k y images (length y) !! x = Some (ONdarray a))
    (List.map (fun t => (length h + 1 + k + t)%nat)
       (positions y c (length y)))
    (images_of_class images y c).
Proof.
  intros Hlen Hc.
  pose proof (loaded_heap_class_images h k y images c (length y) (length y)
                Hlen ltac:(lia) ltac:(lia)) as Hread.
  rewrite !take_ge in Hread by lia.
  change (List.map ?f ?l) with (f <$> l).
  apply Forall2_fmap_l. exact Hread.
Qed.

(** X9. On the example set [load_data] has built for [num_classes]
    classes, the outcome of the sampler depends on [num_classes] only, not
    on how many images a class holds: a ValueError exactly when
    [n >= num_classes], a KeyError exactly when [n < num_classes <= class_],
    and a list in every other case. *)
Theorem sampler_on_loaded_set
    (x_train : list ndarray) (y_train : list nat) (num_classes : nat)
    (s s' : state) (ex : loc) (n class_ : nat) :
  load_data x_train y_train num_classes s = Ok ex s' ->
  (get_pure_examples ex n class_ s' = Raise ValueError
   <-> (num_classes <= n)%nat)
  /\ (get_pure_examples ex n class_ s' = Raise KeyError
      <-> (n < num_classes)%nat /\ (num_classes <= class_)%nat)
  /\ ((exists l s'', get_pure_examples ex n class_ s' = Ok l s'')
      <-> (n < num_classes)%nat /\ (class_ < num_classes)%nat).
Proof.
  intros Hrun.
  destruct (load_data_cases x_train y_train num_classes s)
    as [[_ H] | [(_ & _ & H) | (Hlen & Hall & H)]];
    rewrite H in Hrun; try discriminate.
  injection Hrun as <- <-.
  set (s' := State _ _).
  assert (Hlen' : length (normalised x_train) = length y_train).
  { unfold normalised. rewrite length_map. exact Hlen. }
  assert (Hex : heap s' !! length (heap s)
                = Some (ODict (class_dict (length (heap s)) num_classes)))
    by apply loaded_heap_dict.
  pose proof (class_dict_size (length (heap s)) num_classes) as Hsize.
  destruct (decide (num_classes <= n)%nat) as [Hn | Hn].
  { rewrite (get_pure_examples_ValueError _ _ _ n class_ Hex)
      by (rewrite Hsize; unfold low_limit_max; lia).
    split; [tauto |].
    split; [split; [discriminate | lia] |].
    split; [intros (? & ? & ?); discriminate | lia]. }
  assert (Hhi : (0 <= low_limit_max
                       (size (class_dict (length (heap s)) num_classes)) n)%Z)
    by (rewrite Hsize; unfold low_limit_max; lia).
  destruct (decide (num_classes <= class_)%nat) as [Hc | Hc].
  { rewrite (get_pure_examples_KeyError _ _ _ n class_ Hex Hhi)
      by (apply class_dict_lookup_None, Hc).
    split; [split; [discriminate | lia] |].
    split; [split; [auto with lia | reflexivity] |].
    split; [intros (? & ? & ?); discriminate | lia]. }
  pose proof (loaded_heap_class_list (heap s) num_classes y_train
                (normalised x_train) class_ Hlen' ltac:(lia)) as Hclass.
  erewrite get_pure_examples_Ok; cycle 1.
  - exact Hex.
  - exact Hhi.
  - apply class_dict_lookup. lia.
  - apply loaded_heap_list. lia.
  - apply Forall2_take, Forall2_drop. exact Hclass.
  - split; [split; [discriminate | lia] |].
    split; [split; [discriminate | lia] |].
    split; [lia | eauto].
Qed.

(** Three classes loaded: two images can be asked for, three cannot. *)
Lemma sampler_on_loaded_set_witness :
  (exists l s'',
     get_pure_examples toy_examples 2 1 (toy_state (fun _ => 0%nat))
     = Ok l s'')
  /\ get_pure_examples toy_examples 3 1 (toy_state (fun _ => 0%nat))
     = Raise ValueError.
Proof.
  assert (Hrun : load_data toy_x toy_y 3 (State [] (fun _ => 0%nat))
                 = Ok toy_examples (toy_state (fun _ => 0%nat)))
    by (vm_compute; reflexivity).
  split.
  - apply (proj2 (proj2 (sampler_on_loaded_set toy_x toy_y 3 _ _ _ 2 1 Hrun))).
    lia.
  - apply (proj1 (sampler_on_loaded_set toy_x toy_y 3 _ _ _ 3 1 Hrun)).
    lia.
Defined.

(** X10. Loading then sampling: the batches returned are [n] consecutive
    images of the requested class (fewer when the class ends before), in
    the order of the dataset, starting at the drawn offset, each divided by
    255 and wrapped as a single-example batch. *)
Theorem sampler_returns_images_of_class
    (x_train : list ndarray) (y_train : list nat) (num_classes : nat)
    (s s' : state) (ex : loc) (n class_ : nat) :
  load_data x_train y_train num_classes s = Ok ex s' ->
  (n < num_classes)%nat -> (class_ < num_classes)%nat ->
  exists l s'',
    get_pure_examples ex n class_ s' = Ok l s''
    /\ read_batches (heap s'') l
       = Some (List.map batch_of
                 (take n
                    (drop (rng s 0 mod (num_classes - n))
                       (images_of_class (normalised x_train) y_train
                          class_)))).
Proof.
  intros Hrun Hn Hc.
  destruct (load_data_cases x_train y_train num_classes s)
    as [[_ H] | [(_ & _ & H) | (Hlen & Hall & H)]];
    rewrite H in Hrun; try discriminate.
  injection Hrun as <- <-.
  set (s' := State _ _).
  assert (Hlen' : length (normalised x_train) = length y_train).
  { unfold normalised. rewrite length_map. exact Hlen. }
  pose proof (class_dict_size (length (heap s)) num_classes) as Hsize.
  assert (Hoff : drawn_offset s'
                   (low_limit_max
                      (size (class_dict (length (heap s)) num_classes)) n)
                 = rng s 0 mod (num_classes - n)).
  { rewrite Hsize. unfold drawn_offset, low_limit_max. simpl.
    f_equal. lia. }
  pose proof (loaded_heap_class_list (heap s) num_classes y_train
                (normalised x_train) class_ Hlen' Hc) as Hclass.
  do 2 eexists. split.
  - eapply get_pure_examples_Ok.
    + apply loaded_heap_dict.
    + rewrite Hsize. unfold low_limit_max. lia.
    + apply class_dict_lookup, Hc.
    + apply loaded_heap_list, Hc.
    + rewrite Hoff. apply Forall2_take, Forall2_drop. exact Hclass.
  - apply read_batches_sampled.
Qed.

(** Two images of class 1 of the toy dataset, from offset 0. *)
Lemma sampler_returns_images_of_class_witness :
  exists l s'',
    get_pure_examples toy_examples 2 1 (toy_state (fun _ => 0%nat)) = Ok l s''
    /\ read_batches (heap s'') l
       = Some [batch_of (toy_image (51 / 255));
               batch_of (toy_image (204 / 255))].
Proof.
  assert (Hrun : load_data toy_x toy_y 3 (State [] (fun _ => 0%nat))
                 = Ok toy_examples (toy_state (fun _ => 0%nat)))
    by (vm_compute; reflexivity).
  exact (sampler_returns_images_of_class toy_x toy_y 3 _ _ _ 2 1 Hrun
           ltac:(lia) ltac:(lia)).
Defined.

(** * More on sampling and on the least likely class *)

(** X11. What the sampler returns is new: the list and each batch in it
    are objects allocated by the call, pairwise distinct, so the caller can
    not reach a stored image through them. *)
Theorem sampler_returns_new_objects
    (s s' : state) (examples l : loc) (n class_ : nat) :
  is_example_set any_array (heap s) examples = true ->
  get_pure_examples examples n class_ s = Ok l s' ->
  heap s !! l = None
  /\ exists items,
       heap s' !! l = Some (OList items)
       /\ NoDup items
       /\ Forall (fun x => heap s !! x = None
                           /\ exists a, heap s' !! x = Some (ONdarray a)) items.
Proof.
  intros Hwf Hrun.
  destruct (get_pure_examples_Ok_inv _ _ _ _ _ _ _ Hwf Hrun)
    as (d & ll & xs & imgs & _ & _ & _ & _ & _ & _ & -> & ->).
  split; [apply lookup_ge_None; lia |].
  exists (seq (S (length (heap s))) (length imgs)). simpl.
  split; [apply list_lookup_middle; reflexivity |].
  split; [apply NoDup_seq |].
  apply Forall_forall. intros x Hx. apply elem_of_seq in Hx.
  split; [apply lookup_ge_None; lia |].
  destruct (lookup_lt_is_Some_2 imgs (x - S (length (heap s)))) as [a Ha];
    [lia |].
  exists (batch_of a). rewrite lookup_app_r by lia.
  replace (x - length (heap s))%nat with (S (x - S (length (heap s)))) by lia.
  simpl. change (List.map batch_obj imgs) with (batch_obj <$> imgs).
  rewrite list_lookup_fmap, Ha. reflexivity.
Qed.

(** Two images sampled from the toy example set. *)
Lemma sampler_returns_new_objects_witness :
  exists l s' items,
    get_pure_examples toy_examples 2 0 (toy_state (fun _ => 0%nat)) = Ok l s'
    /\ heap (toy_state (fun _ => 0%nat)) !! l = None
    /\ heap s' !! l = Some (OList items)
    /\ NoDup items.
Proof.
  destruct (get_pure_examples toy_examples 2 0 (toy_state (fun _ => 0%nat)))
    as [l s' |] eqn:Hrun; [| vm_compute in Hrun; discriminate].
  destruct (sampler_returns_new_objects (toy_state (fun _ => 0%nat)) s'
              toy_examples l 2 0) as (Hnew & items & Hl & Hnd & _).
  - vm_compute. reflexivity.
  - exact Hrun.
  - exists l, s', items. auto.
Defined.

(** X12. When the drawn offset is at or past the end of the list of the
    class, the slice is empty and [least_likely_class] fails with an
    IndexError at [example[0]]; [iterative_least_likely_class] fails with
    it. *)
Theorem least_likely_class_index_error
    (cce : ndarray -> ndarray -> Q) (m : model) (s : state) (examples : loc)
    (d : gmap string loc) (class_ : nat) (class_list : loc) (xs : list loc)
    (alpha epsilon : Q) (num_iterations : nat) :
  heap s !! examples = Some (ODict d) ->
  (0 <= low_limit_max (size d) 1)%Z ->
  d !! str class_ = Some class_list ->
  heap s !! class_list = Some (OList xs) ->
  (length xs <= drawn_offset s (low_limit_max (size d) 1))%nat ->
  least_likely_class m examples class_ s = Raise IndexError
  /\ iterative_least_likely_class cce m examples class_ alpha epsilon
       num_iterations s = Raise IndexError.
Proof.
  intros Hex Hhi Hc Hll Hshort.
  assert (Hllc : least_likely_class m examples class_ s = Raise IndexError).
  { unfold least_likely_class.
    erewrite bind_Ok; cycle 1.
    { eapply (get_pure_examples_Ok s examples d 1 class_ class_list xs []);
        eauto.
      rewrite drop_ge by exact Hshort. constructor. }
    apply bind_Raise. unfold list_getitem.
    erewrite bind_Ok
      by (apply as_list_Ok; simpl; apply list_lookup_middle; reflexivity).
    reflexivity. }
  split; [exact Hllc |].
  unfold iterative_least_likely_class. apply bind_Raise, Hllc.
Qed.

(** Four classes, two images in class 0, offset 2 drawn. *)
Lemma least_likely_class_index_error_witness :
  least_likely_class fixed_model toy_examples 0 (small_state (fun _ => 2%nat))
  = Raise IndexError.
Proof.
  refine (proj1 (least_likely_class_index_error flat_loss fixed_model
                   (small_state (fun _ => 2%nat)) toy_examples
                   (match heap (small_state (fun _ => 2%nat)) !! 0%nat with
                    | Some (ODict d) => d
                    | _ => ∅
                    end)
                   0 1 [5; 6]%nat (1 # 10) (1 # 2) 2 _ _ _ _ _)).
  - vm_compute. reflexivity.
  - vm_compute. discriminate.
  - vm_compute. reflexivity.
  - vm_compute. reflexivity.
  - vm_compute. lia.
Defined.

Lemma model_predict_Ok_inv m x r s s' :
  model_predict m x s = Ok r s' ->
  exists a, heap s !! x = Some (ONdarray a)
    /\ r = length (heap s) /\ s' = grown s [ONdarray (m a)].
Proof.
  intros H. apply bind_Ok_inv in H as (a & s1 & H1 & H2).
  apply as_ndarray_Ok_inv in H1 as [-> H1].
  injection H2 as <- <-. eauto.
Qed.

(** X13. Whenever [least_likely_class] returns, the class it returns is
    the first argmin of the first row of a prediction of the model, so it
    is below the number of entries of that row. *)
Theorem least_likely_class_in_range
    (m : model) (s s' : state) (examples : loc) (class_ k : nat) :
  least_likely_class m examples class_ s = Ok k s' ->
  exists batch row rows,
    m batch = Arr (row :: rows)
    /\ is_first_argmin (nd_flatten row) k
    /\ (k < length (nd_flatten row))%nat.
Proof.
  intros H. unfold least_likely_class in H.
  apply bind_Ok_inv in H as (p & s1 & _ & H).
  apply bind_Ok_inv in H as (e & s2 & _ & H).
  apply bind_Ok_inv in H as (preds & s3 & Hpred & H).
  apply bind_Ok_inv in H as (r & s4 & Hrow & H).
  apply model_predict_Ok_inv in Hpred as (batch & _ & -> & ->).
  unfold nd_getitem in Hrow.
  apply bind_Ok_inv in Hrow as (a & s5 & Ha & Hrow).
  apply as_ndarray_Ok_inv in Ha as [-> Ha].
  rewrite lookup_new in Ha. injection Ha as <-.
  destruct (m batch) as [q | items] eqn:Hm; [discriminate |].
  destruct items as [| row rows]; [discriminate |].
  simpl in Hrow. injection Hrow as <- <-.
  unfold np_argmin in H.
  apply bind_Ok_inv in H as (a & s6 & Ha & H).
  apply as_ndarray_Ok_inv in Ha as [-> Ha].
  simpl in Ha. rewrite list_lookup_middle in Ha by reflexivity.
  injection Ha as <-.
  destruct (nd_flatten row) as [| q qs] eqn:Hflat; [discriminate |].
  destruct (argmin_spec q qs) as (k' & Hk' & Hmin).
  rewrite Hk' in H. injection H as <- _.
  exists batch, row, rows. rewrite Hflat.
  split; [exact Hm |]. split; [exact Hmin |].
  destruct Hmin as (v & Hv & _). eapply lookup_lt_Some, Hv.
Qed.

(** On the toy example set with the fixed prediction of three entries. *)
Lemma least_likely_class_in_range_witness :
  exists k s' batch row rows,
    least_likely_class fixed_model toy_examples 0
      (toy_state (fun _ => 1%nat)) = Ok k s'
    /\ fixed_model batch = Arr (row :: rows)
    /\ (k < length (nd_flatten row))%nat.
Proof.
  destruct (least_likely_class fixed_model toy_examples 0
              (toy_state (fun _ => 1%nat)))
    as [k s' |] eqn:Hrun; [| vm_compute in Hrun; discriminate].
  destruct (least_likely_class_in_range fixed_model
              (toy_state (fun _ => 1%nat)) s' toy_examples 0 k Hrun)
    as (batch & row & rows & Hm & _ & Hlt).
  exists k, s', batch, row, rows. auto.
Defined.

(** * The driver *)

Section DriverRules.

Variable Inv : list line -> Prop.
Variable C : crash -> Prop.

Lemma driver_keeps_dret {A} (a : A) (Q : A -> Prop) :
  Q a -> driver_keeps Inv C (dret a) Q.
Proof. intros HQ out s HI. simpl. auto. Qed.

Lemma driver_keeps_dbind {A B} (m : D A) (k : A -> D B) P Q :
  driver_keeps Inv C m P ->
  (forall a, P a -> driver_keeps Inv C (k a) Q) ->
  driver_keeps Inv C (dbind m k) Q.
Proof.
  intros Hm Hk out s HI. unfold dbind.
  specialize (Hm out s HI). destruct (m out s) as [a out' s' | why out'].
  - destruct Hm as [HI' HP]. exact (Hk a HP out' s' HI').
  - exact Hm.
Qed.

Lemma driver_keeps_call {A} (m : M A) :
  (forall e, C (Uncaught e)) -> driver_keeps Inv C (call m) anything.
Proof.
  intros HC out s HI. unfold call. destruct (m s); split; auto. exact I.
Qed.

Lemma driver_keeps_print l :
  (forall out, Inv out -> Inv (out ++ [l])) ->
  driver_keeps Inv C (print l) anything.
Proof. intros Hl out s HI. simpl. split; [auto | exact I]. Qed.

Lemma driver_keeps_name_value {A} (v : A) :
  driver_keeps Inv C (name_value (Some v)) (fun a => a = v).
Proof. intros out s HI. simpl. auto. Qed.

Lemma driver_keeps_for_in {A} (l : list A) (binding : option A)
    (body : A -> D unit) :
  (forall x, driver_keeps Inv C (body x) anything) ->
  driver_keeps Inv C (for_in l binding body)
    (fun r => r = binding_after l binding).
Proof.
  intros Hbody. revert binding. induction l as [| x l IH]; intros binding.
  - apply driver_keeps_dret. reflexivity.
  - simpl. eapply driver_keeps_dbind; [apply Hbody |].
    intros _ _. apply IH.
Qed.

End DriverRules.

Section DriverProperties.

Variable cce : ndarray -> ndarray -> Q.
Variable m : model.

(** An invariant of the output that any line showing 19/10 as the epsilon
    of an iterative report preserves, and reasons to stop that include
    every exception. *)
Variable Inv : list line -> Prop.
Variable C : crash -> Prop.
Hypothesis Inv_print :
  forall out l, shows_epsilon (19 # 10) l -> Inv out -> Inv (out ++ [l]).
Hypothesis C_exception : forall e, C (Uncaught e).

(** One step of a walk through a statement of the driver. *)
Ltac driver_step :=
  first
    [ apply driver_keeps_call; exact C_exception
    | apply driver_keeps_print; intros out; apply Inv_print; exact I
    | eapply driver_keeps_dbind;
      [ first [ apply driver_keeps_call; exact C_exception
              | apply driver_keeps_print; intros out; apply Inv_print;
                exact I ]
      | intros ? _ ] ].

Lemma report_example_keeps examples pure_examples test_class target_class
    num_iters i epsilon :
  driver_keeps Inv C
    (report_example cce m examples pure_examples test_class target_class
       (tenths 20 10) (tenths 5 15) num_iters i epsilon)
    (fun r => r = Some (19 # 10)).
Proof.
  unfold report_example.
  do 4 driver_step.
  eapply driver_keeps_dbind.
  { apply driver_keeps_for_in. intros eps. repeat driver_step. }
  intros after ->.
  change (binding_after (tenths 5 15) epsilon) with (Some (19 # 10)).
  driver_step.
  eapply driver_keeps_dbind.
  { apply driver_keeps_for_in. intros alpha. do 2 driver_step.
    eapply driver_keeps_dbind; [apply driver_keeps_name_value |].
    intros shown ->. driver_step.
    apply driver_keeps_print. intros out. apply Inv_print. reflexivity. }
  intros _ _. driver_step.
  eapply driver_keeps_dbind.
  { apply driver_keeps_for_in. intros alpha. driver_step.
    eapply driver_keeps_dbind; [apply driver_keeps_name_value |].
    intros shown ->. driver_step.
    apply driver_keeps_print. intros out. apply Inv_print. reflexivity. }
  intros _ _. driver_step.
  apply driver_keeps_dret. reflexivity.
Qed.

Lemma report_examples_keeps examples pure_examples test_class target_class
    num_iters count start epsilon :
  driver_keeps Inv C
    (report_examples cce m examples pure_examples test_class target_class
       (tenths 20 10) (tenths 5 15) num_iters start count epsilon)
    anything.
Proof.
  revert start epsilon. induction count as [| count IH];
    intros start epsilon; simpl.
  - apply driver_keeps_dret. exact I.
  - eapply driver_keeps_dbind; [apply report_example_keeps |].
    intros r _. apply IH.
Qed.

Lemma main_keeps x_train y_train :
  driver_keeps Inv C (main cce m x_train y_train) anything.
Proof.
  unfold main. do 4 driver_step. apply report_examples_keeps.
Qed.

End DriverProperties.

(** X14. Every report of an iterative attack that the driver prints shows
    1.9 as its epsilon, the value the variable [epsilon] keeps from the
    loop of the one-shot attack, while both iterative attacks are called
    with 0.5.  This holds of the output of every run, finished or not. *)
Theorem driver_shows_last_epsilon
    (cce : ndarray -> ndarray -> Q) (m : model)
    (x_train : list ndarray) (y_train : list nat) (s : state) :
  Forall (shows_epsilon (19 # 10)) (printed (main cce m x_train y_train [] s)).
Proof.
  pose proof (main_keeps cce m (Forall (shows_epsilon (19 # 10)))
                (fun _ => True)) as H.
  specialize (H ltac:(intros out l Hl Hout; apply Forall_app; split;
                      [exact Hout | constructor; [exact Hl | constructor]])
                ltac:(intros e; exact I) x_train y_train [] s
                ltac:(constructor)).
  destruct (main cce m x_train y_train [] s); simpl; tauto.
Qed.

(** X15. The driver never stops on an unbound name: [epsilon] is read
    after the loop over the fifteen epsilons has bound it.  A run that
    stops short stops on an exception of the functions it calls. *)
Theorem driver_never_unbound
    (cce : ndarray -> ndarray -> Q) (m : model)
    (x_train : list ndarray) (y_train : list nat) (s : state)
    (out out' : list line) :
  main cce m x_train y_train out s <> Crashed NameError out'.
Proof.
  pose proof (main_keeps cce m (fun _ => True) (fun why => why <> NameError))
    as H.
  specialize (H ltac:(intros; exact I) ltac:(intros e; discriminate)
                x_train y_train out s I).
  intros Heq. rewrite Heq in H. destruct H as [_ H]. apply H. reflexivity.
Qed.

Lemma get_pure_examples_loaded_Ok h k y images g n c :
  length images = length y -> (n < k)%nat -> (c < k)%nat ->
  exists l s'',
    get_pure_examples (length h) n c
      (State (loaded_heap h k y images (length y)) g) = Ok l s''.
Proof.
  intros Hlen Hn Hc.
  pose proof (class_dict_size (length h) k) as Hsize.
  pose proof (loaded_heap_class_list h k y images c Hlen Hc) as Hclass.
  do 2 eexists.
  eapply get_pure_examples_Ok.
  - apply loaded_heap_dict.
  - rewrite Hsize. unfold low_limit_max. lia.
  - apply class_dict_lookup, Hc.
  - apply loaded_heap_list, Hc.
  - apply Forall2_take, Forall2_drop. exact Hclass.
Qed.

(** X16. The driver reaches its first [print] exactly when [load_data]
    returns: with ten classes, sampling two images of class 5 can not
    fail.  When [load_data] raises, the run stops on that exception with
    nothing printed. *)
Theorem driver_first_line
    (cce : ndarray -> ndarray -> Q) (m : model)
    (x_train : list ndarray) (y_train : list nat) (s : state) :
  (forall e, load_data x_train y_train NUM_CLASSES s = Raise e ->
     main cce m x_train y_train [] s = Crashed (Uncaught e) [])
  /\ (forall ex s', load_data x_train y_train NUM_CLASSES s = Ok ex s' ->
        exists rest,
          printed (main cce m x_train y_train [] s)
          = TestingOnPureClass 5 :: rest).
Proof.
  split.
  - intros e He. unfold main, dbind, call. rewrite He. reflexivity.
  - intros ex s' Hrun.
    destruct (load_data_cases x_train y_train NUM_CLASSES s)
      as [[_ H] | [(_ & _ & H) | (Hlen & Hall & H)]];
      rewrite H in Hrun; try discriminate.
    injection Hrun as <- <-.
    assert (Hlen' : length (normalised x_train) = length y_train).
    { unfold normalised. rewrite length_map. exact Hlen. }
    destruct (get_pure_examples_loaded_Ok (heap s) NUM_CLASSES y_train
                (normalised x_train) (rng s) 2 5 Hlen'
                ltac:(unfold NUM_CLASSES; lia) ltac:(unfold NUM_CLASSES; lia))
      as (l & s'' & Hsample).
    unfold main. unfold dbind at 1. unfold call at 1. rewrite H.
    unfold dbind at 1. unfold call at 1. rewrite Hsample.
    unfold dbind at 1. unfold print at 1. simpl app.
    pose proof (driver_keeps_dbind
                  (fun out => exists rest, out = TestingOnPureClass 5 :: rest)
                  (fun _ => True)
                  (call (py_len l))
                  (fun n => report_examples cce m (length (heap s)) l 5 0
                              (tenths 20 10) (tenths 5 15) 20 0 n None)
                  anything anything) as Hrest.
    specialize (Hrest
      ltac:(apply driver_keeps_call; intros e; exact I)
      ltac:(intros n _; apply report_examples_keeps;
            [ intros out line _ [rest ->]; eexists; reflexivity
            | intros e; exact I ])
      [TestingOnPureClass 5] s'' ltac:(eexists; reflexivity)).
    destruct (dbind _ _ _ _); simpl; tauto.
Qed.

(** A finished run on a small dataset: the first line, then eighty more. *)
Lemma driver_first_line_witness :
  exists rest,
    printed (main flat_loss fixed_model driver_x driver_y []
               (State [] (fun _ => 0%nat)))
    = TestingOnPureClass 5 :: rest
    /\ length rest = 80%nat.
Proof.
  destruct (proj2 (driver_first_line flat_loss fixed_model driver_x driver_y
                     (State [] (fun _ => 0%nat))) 0%nat
              (loaded driver_x driver_y NUM_CLASSES (fun _ => 0%nat)))
    as [rest Hrest].
  - vm_compute. reflexivity.
  - exists rest. split; [exact Hrest |].
    vm_compute in Hrest. injection Hrest as <-. reflexivity.
Defined.
